(** * Personal-Portfolio: a shallow embedding of [js/app.js]

    The development follows the layout of the script:
    - [Js]          the fragment of JavaScript values the script manipulates
                    (strings as UTF-16 code units, truthiness, [||], property
                    reads that throw on [null]);
    - [PLACEHOLDERS], [REGEX], [MESSAGE_LIMIT], [SELECTORS]   the constants;
    - [Projects]    [normalizeProject];
    - [Validation], [Re], [Email]   [validateMessage], [validateEmail] and
                    the regular expressions they test;
    - [Scroll]      [getAxis], [scrollByAxis], [startContinuousScroll],
                    [stopContinuousScroll], [setupArrowScrolling] over an
                    explicit world (the [appState] slot, the host's table of
                    interval timers, the element store, the viewport and the
                    registered listeners), with the host's event loop as a
                    step function;
    - [App]         [appState] and [loadAllData], from the point where the
                    two requests have settled;
    - [Dom], [Render], [Forms]   a store of DOM nodes and, over it,
                    [renderAboutMe], [createProjectCard],
                    [renderProjectsList], [renderSpotlight],
                    [handleCardClick], [updateCharCounter], [showError],
                    [clearError] and [handleSubmit].
    The theorems come after the definitions, one module per part.

    Numbers are integers ([Z]): every number the modelled functions compute
    with (directions, pixel offsets, lengths) is integral. *)

From stdpp Require Import gmap strings list fin_maps pretty.
From Stdlib Require Import ZArith NArith Ascii String Lia.

#[local] Set Warnings "-register-all".
#[local] Open Scope Z_scope.

(* ================================================================== *)
(** ** JavaScript values *)
(* ================================================================== *)

(** A JavaScript string is a sequence of UTF-16 code units. *)
Abbreviation jsstring := (list N).

Module Js.

(** A source literal (ASCII) as a JavaScript string. *)
Definition lit (s : string) : jsstring :=
  N_of_ascii <$> list_ascii_of_string s.

(** The values [response.json()] can produce, plus [undefined]. *)
Inductive value :=
| VUndefined
| VNull
| VBool (b : bool)
| VNum (n : Z)
| VStr (s : jsstring)
| VArr (xs : list value)
| VObj (fields : gmap jsstring value).

(** ToBoolean: [undefined], [null], [false], [0] and [''] are falsy. *)
Definition toBoolean (v : value) : bool :=
  match v with
  | VUndefined | VNull => false
  | VBool b => b
  | VNum n => negb (n =? 0)
  | VStr s => match s with [] => false | _ :: _ => true end
  | VArr _ | VObj _ => true
  end.

(** [a || b] *)
Definition or (a b : value) : value := if toBoolean a then a else b.

Inductive exn := TypeError.

(** The outcome of evaluating an expression that may throw. *)
Inductive completion (A : Type) :=
| Normal (a : A)
| Abrupt (e : exn).
Arguments Normal {A} a.
Arguments Abrupt {A} e.

Definition cbind {A B} (c : completion A) (k : A -> completion B) : completion B :=
  match c with
  | Normal a => k a
  | Abrupt e => Abrupt e
  end.

(** [v.k] for one of the property names the script reads: reading a property
    of [null] or [undefined] throws; an object yields its own property or
    [undefined]; no other value (boolean, number, string, array) has a
    property of these names. *)
Definition getProp (v : value) (k : jsstring) : completion value :=
  match v with
  | VUndefined | VNull => Abrupt TypeError
  | VObj fields => Normal (default VUndefined (fields !! k))
  | _ => Normal VUndefined
  end.

End Js.

Notation "'let!' x := c 'in' k" := (Js.cbind c (fun x => k))
  (at level 10, x name, c at level 100, k at level 200, only parsing).

(* ================================================================== *)
(** ** Constants *)
(* ================================================================== *)

Module PLACEHOLDERS.
Definition cardImage : jsstring := Js.lit "/images/card_placeholder_bg.webp".
Definition spotlightImage : jsstring := Js.lit "/images/spotlight_placeholder_bg.webp".
End PLACEHOLDERS.

Definition MESSAGE_LIMIT : Z := 300.

Module REGEX.

Definition between (lo hi c : N) : bool := ((lo <=? c) && (c <=? hi))%N.

(** The class [a-zA-Z0-9@._-]. *)
Definition legalChar (c : N) : bool :=
  between 97 122 c || between 65 90 c || between 48 57 c
  || (c =? 64)%N || (c =? 46)%N || (c =? 95)%N || (c =? 45)%N.

(** [/[^a-zA-Z0-9@._-]/.test(s)]: some code unit lies outside the class. *)
Definition illegalChars_test (s : jsstring) : bool :=
  existsb (fun c => negb (legalChar c)) s.

End REGEX.

(* ================================================================== *)
(** ** Data normalization *)
(* ================================================================== *)

Module Projects.
Import Js.

Record Project := {
  id : value;
  name : value;
  short : value;
  long : value;
  url : value;
  cardImage : value;
  spotlightImage : value
}.

(** [const normalizeProject = (project = {}) => ({ ... })] *)
Definition normalizeProject (arg : value) : completion Project :=
  let project := match arg with VUndefined => VObj ∅ | _ => arg end in
  let! project_id := getProp project (lit "project_id") in
  let! project_name := getProp project (lit "project_name") in
  let! short_description := getProp project (lit "short_description") in
  let! long_description := getProp project (lit "long_description") in
  let! url' := getProp project (lit "url") in
  let! card_image := getProp project (lit "card_image") in
  let! spotlight_image := getProp project (lit "spotlight_image") in
  Normal {|
    id := or project_id (VStr (lit "unknown"));
    name := or project_name (VStr (lit "Untitled Project"));
    short := or short_description (VStr (lit "No description available."));
    long := or long_description (VStr (lit "Detailed information coming soon."));
    url := or url' (VStr (lit "#"));
    cardImage := or card_image (VStr PLACEHOLDERS.cardImage);
    spotlightImage := or spotlight_image (VStr PLACEHOLDERS.spotlightImage)
  |}.

(** The seven fields: source property, normalized field, default. *)
Definition fieldTable : list (jsstring * (Project -> value) * value) :=
  [ (lit "project_id", id, VStr (lit "unknown"));
    (lit "project_name", name, VStr (lit "Untitled Project"));
    (lit "short_description", short, VStr (lit "No description available."));
    (lit "long_description", long, VStr (lit "Detailed information coming soon."));
    (lit "url", url, VStr (lit "#"));
    (lit "card_image", cardImage, VStr (lit "/images/card_placeholder_bg.webp"));
    (lit "spotlight_image", spotlightImage,
       VStr (lit "/images/spotlight_placeholder_bg.webp")) ].

End Projects.

(* ================================================================== *)
(** ** Form validation *)
(* ================================================================== *)

Module Validation.

Record ValidationResult := { isValid : bool; message : string }.

(** WhiteSpace and LineTerminator code units, the ones [trim] strips. *)
Definition isWhiteSpace (c : N) : bool :=
  (REGEX.between 9 13 c || (c =? 32) || (c =? 160) || (c =? 5760)
   || REGEX.between 8192 8202 c || (c =? 8232) || (c =? 8233)
   || (c =? 8239) || (c =? 8287) || (c =? 12288) || (c =? 65279))%N.

Fixpoint trimStart (s : jsstring) : jsstring :=
  match s with
  | [] => []
  | c :: s' => if isWhiteSpace c then trimStart s' else s
  end.

Definition trim (s : jsstring) : jsstring :=
  rev (trimStart (rev (trimStart s))).

(** [!s] for a string [s] *)
Definition isEmpty (s : jsstring) : bool :=
  match s with [] => true | _ => false end.

(** [const validateMessage = (value = '') => { ... }] *)
Definition validateMessage (value : jsstring) : ValidationResult :=
  if isEmpty (trim value) then
    {| isValid := false; message := "Message is required." |}
  else if REGEX.illegalChars_test value then
    {| isValid := false;
       message := "Message contains invalid characters. Only letters, numbers, @, ., _, and - are allowed." |}
  else if MESSAGE_LIMIT <? Z.of_nat (List.length value) then
    {| isValid := false;
       message := "Message must be " +:+ pretty MESSAGE_LIMIT +:+ " characters or less." |}
  else
    {| isValid := true; message := "" |}.

End Validation.

(* ================================================================== *)
(** ** Responsive scrolling *)
(* ================================================================== *)

Module Scroll.
Import Js.

(** Element references and timer ids. [setInterval] returns an integer
    greater than zero, so a stored id is always truthy; [None] is [null]. *)
Abbreviation loc := positive.
Abbreviation handle := positive.

(** The two scroll offsets of an element, as the script reads and writes
    them. A host that clamps an offset to the element's scrollable range does
    so outside the script; the store keeps what the script wrote. *)
Record Element := { scrollLeft : Z; scrollTop : Z }.

#[global] Instance Element_inhabited : Inhabited Element :=
  populate {| scrollLeft := 0; scrollTop := 0 |}.

(** What the callback [() => { scrollByAxis(container, direction); }]
    captures. *)
Record Closure := { cb_container : option loc; cb_direction : Z }.

Inductive target := Window | Node (l : loc).

Inductive evname :=
| pointerdown | mousedown | pointerup | mouseup | mouseleave
| pointercancel | blur | resize.

(** The listeners the script registers. *)
Inductive handler :=
| HStart (container : option loc) (direction : Z)
    (* [() => startContinuousScroll(projectsList, direction)] *)
| HStop.
    (* [stopContinuousScroll] *)

Record Listener := { l_target : target; l_type : evname; l_handler : handler }.

#[global] Instance target_eq_dec : EqDecision target.
Proof. solve_decision. Defined.
#[global] Instance evname_eq_dec : EqDecision evname.
Proof. solve_decision. Defined.

(** The selectors [setupArrowScrolling] queries. *)
Inductive selector := projectNavArrows | projectsList | arrowLeft | arrowRight.

Record World := {
  scrollController : option handle;      (* [appState.scrollController] *)
  intervals : gmap handle Closure;       (* the host's active interval timers *)
  nextHandle : handle;                   (* the id the next timer gets *)
  heap : gmap loc Element;               (* the elements' scroll offsets *)
  viewportWidth : Z;                     (* in CSS pixels *)
  document : selector -> option loc;     (* what [querySelector] finds *)
  listeners : list Listener              (* in registration order *)
}.

(** Computations over the world that may throw; the world at the point of
    the throw is kept, as in JavaScript. *)
Definition M (A : Type) : Type := World -> completion A * World.

Definition ret {A} (a : A) : M A := fun w => (Normal a, w).

Definition bind {A B} (m : M A) (k : A -> M B) : M B :=
  fun w =>
    match m w with
    | (Normal a, w') => k a w'
    | (Abrupt e, w') => (Abrupt e, w')
    end.

Definition throw {A} (e : exn) : M A := fun w => (Abrupt e, w).

Definition gets {A} (f : World -> A) : M A := fun w => (Normal (f w), w).

Definition modify (f : World -> World) : M unit := fun w => (Normal tt, f w).

Notation "'do' x <- c ; k" := (bind c (fun x => k))
  (at level 10, x name, c at level 100, k at level 200, only parsing).
Notation "c ;; k" := (bind c (fun _ => k))
  (at level 100, k at level 200, right associativity, only parsing).

(** *** Host operations *)

Definition set_scrollController (v : option handle) (w : World) : World :=
  {| scrollController := v; intervals := intervals w;
     nextHandle := nextHandle w; heap := heap w;
     viewportWidth := viewportWidth w; document := document w;
     listeners := listeners w |}.

Definition set_intervals (t : gmap handle Closure) (w : World) : World :=
  {| scrollController := scrollController w; intervals := t;
     nextHandle := nextHandle w; heap := heap w;
     viewportWidth := viewportWidth w; document := document w;
     listeners := listeners w |}.

Definition set_nextHandle (h : handle) (w : World) : World :=
  {| scrollController := scrollController w; intervals := intervals w;
     nextHandle := h; heap := heap w;
     viewportWidth := viewportWidth w; document := document w;
     listeners := listeners w |}.

Definition set_heap (hp : gmap loc Element) (w : World) : World :=
  {| scrollController := scrollController w; intervals := intervals w;
     nextHandle := nextHandle w; heap := hp;
     viewportWidth := viewportWidth w; document := document w;
     listeners := listeners w |}.

Definition set_viewportWidth (vw : Z) (w : World) : World :=
  {| scrollController := scrollController w; intervals := intervals w;
     nextHandle := nextHandle w; heap := heap w;
     viewportWidth := vw; document := document w;
     listeners := listeners w |}.

Definition set_listeners (ls : list Listener) (w : World) : World :=
  {| scrollController := scrollController w; intervals := intervals w;
     nextHandle := nextHandle w; heap := heap w;
     viewportWidth := viewportWidth w; document := document w;
     listeners := ls |}.

(** [setInterval(callback, 50)]: a new active timer under a new id. *)
Definition setInterval (cb : Closure) : M handle :=
  fun w =>
    let h := nextHandle w in
    (Normal h,
     set_nextHandle (Pos.succ h) (set_intervals (<[h := cb]> (intervals w)) w)).

(** [clearInterval(id)]: the timer, if active, is removed; never throws. *)
Definition clearInterval (h : handle) : M unit :=
  modify (fun w => set_intervals (delete h (intervals w)) w).

(** [window.matchMedia('(min-width: Npx)').matches] *)
Definition matchMedia_minWidth (px : Z) : M bool :=
  gets (fun w => px <=? viewportWidth w).

(** [document.querySelector(sel)] *)
Definition querySelector (sel : selector) : M (option loc) :=
  gets (fun w => document w sel).

(** [scope.querySelector(sel)]: throws when [scope] is [null]. *)
Definition querySelectorIn (scope : option loc) (sel : selector) : M (option loc) :=
  match scope with
  | None => throw TypeError
  | Some _ => gets (fun w => document w sel)
  end.

(** [target.addEventListener(type, handler)] *)
Definition addEventListener (t : target) (e : evname) (h : handler) : M unit :=
  modify (fun w =>
    set_listeners (listeners w ++ [{| l_target := t; l_type := e; l_handler := h |}]) w).

(** [container.scrollLeft += dx]: throws when [container] is [null]. *)
Definition addScrollLeft (container : option loc) (dx : Z) : M unit :=
  match container with
  | None => throw TypeError
  | Some l =>
      modify (fun w =>
        let e := heap w !!! l in
        set_heap (<[l := {| scrollLeft := scrollLeft e + dx;
                            scrollTop := scrollTop e |}]> (heap w)) w)
  end.

(** [container.scrollTop += dy]: throws when [container] is [null]. *)
Definition addScrollTop (container : option loc) (dy : Z) : M unit :=
  match container with
  | None => throw TypeError
  | Some l =>
      modify (fun w =>
        let e := heap w !!! l in
        set_heap (<[l := {| scrollLeft := scrollLeft e;
                            scrollTop := scrollTop e + dy |}]> (heap w)) w)
  end.

(** *** The script *)

(** The strings ['x'] and ['y']. *)
Inductive axis := axis_x | axis_y.

(** [const getAxis = () => window.matchMedia('(min-width: 1024px)').matches ? 'y' : 'x'] *)
Definition getAxis : M axis :=
  do m <- matchMedia_minWidth 1024;
  ret (if m then axis_y else axis_x).

(** [Math.abs(delta) * 20], the magnitude of one tick. *)
Definition scrollAmount (delta : Z) : Z := Z.abs delta * 20.

(** [const scrollByAxis = (container, delta) => { ... }] *)
Definition scrollByAxis (container : option loc) (delta : Z) : M unit :=
  if negb (bool_decide (is_Some container)) then ret tt
  else
    do axis <- getAxis;
    let scrollAmount := scrollAmount delta in
    match axis with
    | axis_x => addScrollLeft container (if 0 <? delta then scrollAmount else - scrollAmount)
    | axis_y => addScrollTop container (if 0 <? delta then scrollAmount else - scrollAmount)
    end.

(** [const startContinuousScroll = (container, direction) => { ... }] *)
Definition startContinuousScroll (container : option loc) (direction : Z) : M unit :=
  do sc <- gets scrollController;
  match sc with
  | Some h => clearInterval h
  | None => ret tt
  end;;
  do h <- setInterval {| cb_container := container; cb_direction := direction |};
  modify (set_scrollController (Some h)).

(** [const stopContinuousScroll = () => { ... }] *)
Definition stopContinuousScroll : M unit :=
  do sc <- gets scrollController;
  match sc with
  | Some h =>
      clearInterval h;;
      modify (set_scrollController None)
  | None => ret tt
  end.

(** [n] consecutive ticks of a session's callback. *)
Fixpoint ticks (n : nat) (container : option loc) (direction : Z) : M unit :=
  match n with
  | O => ret tt
  | S n' => scrollByAxis container direction;; ticks n' container direction
  end.

(** The listeners of one arrow: [arrow.addEventListener(...)] seven times. *)
Definition arrowListeners (arrow : loc) (container : option loc) (direction : Z) : M unit :=
  addEventListener (Node arrow) pointerdown (HStart container direction);;
  addEventListener (Node arrow) mousedown (HStart container direction);;
  addEventListener (Node arrow) pointerup HStop;;
  addEventListener (Node arrow) mouseup HStop;;
  addEventListener (Node arrow) mouseleave HStop;;
  addEventListener (Node arrow) pointercancel HStop;;
  addEventListener (Node arrow) blur HStop.

(** [const setupArrowScrolling = () => { ... }] *)
Definition setupArrowScrolling : M unit :=
  do arrowContainer <- querySelector projectNavArrows;
  do projectsList' <- querySelector projectsList;
  if negb (bool_decide (is_Some arrowContainer))
     || negb (bool_decide (is_Some projectsList'))
  then ret tt
  else
    do leftArrow <- querySelectorIn arrowContainer arrowLeft;
    do rightArrow <- querySelectorIn arrowContainer arrowRight;
    match leftArrow with
    | Some la => arrowListeners la projectsList' (-1)
    | None => ret tt
    end;;
    match rightArrow with
    | Some ra => arrowListeners ra projectsList' 1
    | None => ret tt
    end;;
    addEventListener Window blur HStop;;
    addEventListener Window resize HStop.

(** *** The host's event loop *)

Definition runHandler (h : handler) : M unit :=
  match h with
  | HStart container direction => startContinuousScroll container direction
  | HStop => stopContinuousScroll
  end.

(** A task runs to completion; an exception that escapes it is reported by
    the host and the loop goes on from the world the task left. *)
Definition task (m : M unit) (w : World) : World := snd (m w).

(** The listeners registered for [e] at [t] run in registration order. *)
Definition dispatch (t : target) (e : evname) (w : World) : World :=
  foldl (fun w' l =>
           if decide (l_target l = t ∧ l_type l = e)
           then task (runHandler (l_handler l)) w'
           else w')
        w (listeners w).

Inductive event :=
| Dispatch (t : target) (e : evname)  (* a DOM event reaches the listeners of [t] *)
| Resize (width : Z)                  (* the viewport changes, then [resize] fires *)
| Fire (h : handle).                  (* the period of timer [h] elapses *)

Definition step (w : World) (ev : event) : World :=
  match ev with
  | Dispatch t e => dispatch t e w
  | Resize width => dispatch Window resize (set_viewportWidth width w)
  | Fire h =>
      match intervals w !! h with
      | Some cb => task (scrollByAxis (cb_container cb) (cb_direction cb)) w
      | None => w
      end
  end.

Definition run (tr : list event) (w : World) : World := foldl step w tr.

(** The world when the script is loaded, and after [setupArrowScrolling]. *)
Definition initial (doc : selector -> option loc) (hp : gmap loc Element)
    (vw : Z) : World :=
  {| scrollController := None; intervals := ∅; nextHandle := 1%positive;
     heap := hp; viewportWidth := vw; document := doc; listeners := [] |}.

Definition boot (doc : selector -> option loc) (hp : gmap loc Element)
    (vw : Z) : World :=
  task setupArrowScrolling (initial doc hp vw).

(** Direct calls of the controller's two operations. *)
Inductive call :=
| Start (container : option loc) (direction : Z)
| Stop.

Definition perform (c : call) : M unit :=
  match c with
  | Start container direction => startContinuousScroll container direction
  | Stop => stopContinuousScroll
  end.

Definition performAll (cs : list call) (w : World) : World :=
  foldl (fun w' c => task (perform c) w') w cs.

(** The consistency of the session slot with the timer table: the active
    timers are exactly the one named by the slot, if any. *)
Definition consistent (w : World) : Prop :=
  match scrollController w with
  | Some h => exists cb, intervals w = {[ h := cb ]}
  | None => intervals w = ∅
  end.

(** The window's [resize] listener, and what a world looks like once
    [setupArrowScrolling] has run: either it returned early and nothing was
    ever registered (so no session can exist), or the window's [resize]
    listener was registered last. *)
Definition resizeStop : Listener :=
  {| l_target := Window; l_type := resize; l_handler := HStop |}.

Definition wired (w : World) : Prop :=
  (listeners w = [] /\ scrollController w = None) \/
  last (listeners w) = Some resizeStop.

(** The controller's Idle state: no session in the slot, no active timer. *)
Definition idle (w : World) : Prop :=
  scrollController w = None /\ intervals w = ∅.

(** [listens l t e]: listener [l] is registered for [e] at [t]. *)
Definition listens (l : Listener) (t : target) (e : evname) : bool :=
  bool_decide (l_target l = t /\ l_type l = e).

Definition isStop (h : handler) : bool :=
  match h with HStop => true | HStart _ _ => false end.

(** [(t, e)] is a stop trigger: something listens for it, and everything
    that does is [stopContinuousScroll]. *)
Definition stopTrigger (w : World) (t : target) (e : evname) : bool :=
  existsb (fun l => listens l t e) (listeners w)
  && forallb (fun l => implb (listens l t e) (isStop (l_handler l)))
             (listeners w).

(** The DOM event an event-loop step dispatches, if any. *)
Definition trigger_of (ev : event) : option (target * evname) :=
  match ev with
  | Dispatch t e => Some (t, e)
  | Resize _ => Some (Window, resize)
  | Fire _ => None
  end.

(** A page with the four elements the script looks for: the arrow container
    (1), the project list (2), the left arrow (3) and the right arrow (4). *)
Definition samplePage (sel : selector) : option loc :=
  match sel with
  | projectNavArrows => Some 1%positive
  | projectsList => Some 2%positive
  | arrowLeft => Some 3%positive
  | arrowRight => Some 4%positive
  end.

(** Every active timer has an id the host has already handed out. *)
Definition handles_allocated (w : World) : Prop :=
  forall h cb, intervals w !! h = Some cb -> (h < nextHandle w)%positive.

End Scroll.

(* ================================================================== *)
(** ** Regular expressions *)
(* ================================================================== *)

(** The regular expressions of the script use character classes,
    concatenation and [+] only, between [^] and [$]. [test] decides whether
    the whole string matches, by derivatives. *)
Module Re.

Inductive regex :=
| Empty                      (* matches nothing *)
| Eps                        (* matches the empty string *)
| Class (p : N -> bool)      (* one code unit of a class *)
| Cat (r1 r2 : regex)
| Alt (r1 r2 : regex)
| Star (r : regex).

(** [r+] *)
Definition Plus (r : regex) : regex := Cat r (Star r).

Fixpoint nullable (r : regex) : bool :=
  match r with
  | Empty => false
  | Eps => true
  | Class _ => false
  | Cat r1 r2 => nullable r1 && nullable r2
  | Alt r1 r2 => nullable r1 || nullable r2
  | Star _ => true
  end.

Fixpoint deriv (c : N) (r : regex) : regex :=
  match r with
  | Empty => Empty
  | Eps => Empty
  | Class p => if p c then Eps else Empty
  | Cat r1 r2 =>
      if nullable r1
      then Alt (Cat (deriv c r1) r2) (deriv c r2)
      else Cat (deriv c r1) r2
  | Alt r1 r2 => Alt (deriv c r1) (deriv c r2)
  | Star r1 => Cat (deriv c r1) (Star r1)
  end.

(** [/^r$/.test(s)] *)
Fixpoint test (r : regex) (s : jsstring) : bool :=
  match s with
  | [] => nullable r
  | c :: s' => test (deriv c r) s'
  end.

(** The strings a regular expression denotes. *)
Inductive Matches : regex -> jsstring -> Prop :=
| MEps : Matches Eps []
| MClass p c : p c = true -> Matches (Class p) [c]
| MCat r1 r2 s1 s2 : Matches r1 s1 -> Matches r2 s2 -> Matches (Cat r1 r2) (s1 ++ s2)
| MAltL r1 r2 s : Matches r1 s -> Matches (Alt r1 r2) s
| MAltR r1 r2 s : Matches r2 s -> Matches (Alt r1 r2) s
| MStar0 r : Matches (Star r) []
| MStarS r s1 s2 : Matches r s1 -> Matches (Star r) s2 -> Matches (Star r) (s1 ++ s2).

End Re.

(* ================================================================== *)
(** ** Form validation: the e-mail address *)
(* ================================================================== *)

Module Email.
Import Validation.

(** The class [[^\s@]]. *)
Definition notSpaceAt (c : N) : bool := negb (isWhiteSpace c || (c =? 64)%N).

(** [REGEX.email], [/^[^\s@]+@[^\s@]+\.[^\s@]+$/] *)
Definition REGEX_email : Re.regex :=
  Re.Cat (Re.Plus (Re.Class notSpaceAt))
    (Re.Cat (Re.Class (N.eqb 64))
       (Re.Cat (Re.Plus (Re.Class notSpaceAt))
          (Re.Cat (Re.Class (N.eqb 46))
             (Re.Plus (Re.Class notSpaceAt))))).

(** [const validateEmail = (value = '') => { ... }] *)
Definition validateEmail (value : jsstring) : ValidationResult :=
  if isEmpty (trim value) then
    {| isValid := false; message := "Email address is required." |}
  else if REGEX.illegalChars_test value then
    {| isValid := false;
       message := "Email contains invalid characters. Only letters, numbers, @, ., _, and - are allowed." |}
  else if negb (Re.test REGEX_email value) then
    {| isValid := false; message := "Please enter a valid email address." |}
  else
    {| isValid := true; message := "" |}.

End Email.

(* ================================================================== *)
(** ** Application state and data loading *)
(* ================================================================== *)

Module App.
Import Js Projects.

(** [appState], without the scroll controller's slot (see [Scroll]). *)
Record AppState := {
  aboutMeData : value;
  projectsData : list Project;
  currentProjectId : value;
  isInitialized : bool
}.

Definition initialState : AppState :=
  {| aboutMeData := VNull; projectsData := []; currentProjectId := VNull;
     isInitialized := false |}.

Definition set_aboutMeData (v : value) (st : AppState) : AppState :=
  {| aboutMeData := v; projectsData := projectsData st;
     currentProjectId := currentProjectId st; isInitialized := isInitialized st |}.

Definition set_projectsData (ps : list Project) (st : AppState) : AppState :=
  {| aboutMeData := aboutMeData st; projectsData := ps;
     currentProjectId := currentProjectId st; isInitialized := isInitialized st |}.

Definition set_currentProjectId (v : value) (st : AppState) : AppState :=
  {| aboutMeData := aboutMeData st; projectsData := projectsData st;
     currentProjectId := v; isInitialized := isInitialized st |}.

(** How one of the two [fetchJSON(url)] promises settles: with the parsed
    document, or rejected (HTTP error, timeout, network or parse failure). *)
Inductive outcome := Resolved (v : value) | Rejected.

(** A callback applied to each element in order; the first throw ends it. *)
Fixpoint mapM {A B : Type} (f : A -> completion B) (xs : list A) : completion (list B) :=
  match xs with
  | [] => Normal []
  | a :: xs' =>
      let! b := f a in
      let! bs := mapM f xs' in
      Normal (b :: bs)
  end.

(** [v.map(f)]: only an array has a [map] method; on anything else the call
    throws. *)
Definition array_map {B : Type} (f : value -> completion B) (v : value) : completion (list B) :=
  match v with
  | VArr xs => mapM f xs
  | _ => Abrupt TypeError
  end.

(** The three literal records of [loadAllData]. *)
Definition aboutMeComingSoon : value :=
  VObj (<[lit "aboutMe" := VStr (lit "Coming soon...")]>
          (<[lit "headshot" := VNull]> ∅)).

Definition aboutMeFallback : value :=
  VObj (<[lit "aboutMe" := VStr (lit "About section coming soon...")]>
          (<[lit "headshot" := VNull]> ∅)).

Definition placeholderProject : Project :=
  {| id := VStr (lit "placeholder");
     name := VStr (lit "Coming Soon");
     short := VStr (lit "Projects will be available soon.");
     long := VStr (lit "New projects are being developed and will be showcased here soon.");
     url := VStr (lit "#");
     cardImage := VStr PLACEHOLDERS.cardImage;
     spotlightImage := VStr PLACEHOLDERS.spotlightImage |}.

Definition errorFallbackProject : Project :=
  {| id := VStr (lit "error-fallback");
     name := VStr (lit "Loading Error");
     short := VStr (lit "Unable to load projects.");
     long := VStr (lit "Please refresh the page to try loading projects again.");
     url := VStr (lit "#");
     cardImage := VStr PLACEHOLDERS.cardImage;
     spotlightImage := VStr PLACEHOLDERS.spotlightImage |}.

(** [const loadAllData = async () => { ... }], from the point where the two
    requests have settled. Each request has its own [.catch], so
    [Promise.all] always resolves; the [try] body then stores the about-me
    data, maps [normalizeProject] over the projects and stores the result;
    a throw in the body is caught and both fields get the fallbacks. *)
Definition loadAllData (about projects : outcome) (st : AppState) : AppState :=
  let aboutMeData := match about with
                     | Resolved v => v
                     | Rejected => aboutMeComingSoon
                     end in
  let projectsData := match projects with
                      | Resolved v => v
                      | Rejected => VArr []
                      end in
  let st1 := set_aboutMeData aboutMeData st in
  match array_map normalizeProject projectsData with
  | Normal ps =>
      let st2 := set_projectsData ps st1 in
      if (List.length (App.projectsData st2) =? 0)%nat
      then set_projectsData [placeholderProject] st2
      else st2
  | Abrupt _ =>
      set_projectsData [errorFallbackProject]
        (set_aboutMeData aboutMeFallback st1)
  end.

(** Every field of a project is truthy. *)
Definition allTruthy (p : Project) : bool :=
  toBoolean (id p) && toBoolean (name p) && toBoolean (short p)
  && toBoolean (long p) && toBoolean (url p)
  && toBoolean (cardImage p) && toBoolean (spotlightImage p).

End App.

(* ================================================================== *)
(** ** Conversions to strings *)
(* ================================================================== *)

Module Conv.
Import Js.

(** ToString, as a template literal or a DOM attribute applies it. An array
    joins its elements with commas, [null] and [undefined] elements giving
    the empty string; an object gives ['[object Object]']. *)
Fixpoint toString (v : value) : jsstring :=
  match v with
  | VUndefined => lit "undefined"
  | VNull => lit "null"
  | VBool b => if b then lit "true" else lit "false"
  | VNum n => lit (pretty n)
  | VStr s => s
  | VArr xs =>
      (fix join (ys : list value) (first : bool) : jsstring :=
         match ys with
         | [] => []
         | y :: ys' =>
             (if first then [] else lit ",")
             ++ match y with
                | VUndefined | VNull => []
                | _ => toString y
                end
             ++ join ys' false
         end) xs true
  | VObj _ => lit "[object Object]"
  end.

(** [v !== s] for a string [s]: only the same string is equal to it. *)
Definition differsFromString (v : value) (s : jsstring) : bool :=
  match v with
  | VStr t => negb (bool_decide (t = s))
  | _ => true
  end.

(** [v === a] where [a] is what [getAttribute] returned: a string, or [null]
    ([None]) when the attribute is missing. *)
Definition strictEqAttr (v : value) (a : option jsstring) : bool :=
  match a, v with
  | Some s, VStr t => bool_decide (t = s)
  | None, VNull => true
  | _, _ => false
  end.

End Conv.

(* ================================================================== *)
(** ** The page: a store of DOM nodes *)
(* ================================================================== *)

Module SELECTORS.
Definition aboutMe : jsstring := Js.lit "#aboutMe".
Definition projectsList : jsstring := Js.lit "#projectList".
Definition projectSpotlight : jsstring := Js.lit "#projectSpotlight".
Definition spotlightTitles : jsstring := Js.lit "#spotlightTitles".
Definition emailInput : jsstring := Js.lit "#contactEmail".
Definition messageInput : jsstring := Js.lit "#contactMessage".
Definition emailError : jsstring := Js.lit "#emailError".
Definition messageError : jsstring := Js.lit "#messageError".
Definition charRemaining : jsstring := Js.lit "#charactersLeft".
End SELECTORS.

Module Dom.
Import Js.

Abbreviation loc := positive.

(** What the script reads and writes of a node. [style] and [attributes]
    keep the strings as the script wrote them. *)
Record Node := {
  tagName : jsstring;
  classes : list jsstring;                 (* the tokens of the class attribute *)
  attributes : gmap jsstring jsstring;
  style : gmap jsstring jsstring;
  textContent : jsstring;
  children : list loc;
  value : jsstring                         (* the current value of an input *)
}.

Definition emptyNode (tag : jsstring) : Node :=
  {| tagName := tag; classes := []; attributes := ∅; style := ∅;
     textContent := []; children := []; value := [] |}.

#[global] Instance Node_inhabited : Inhabited Node := populate (emptyNode []).

Definition set_classes (cs : list jsstring) (n : Node) : Node :=
  {| tagName := tagName n; classes := cs; attributes := attributes n;
     style := style n; textContent := textContent n; children := children n;
     value := value n |}.

Definition set_attributes (a : gmap jsstring jsstring) (n : Node) : Node :=
  {| tagName := tagName n; classes := classes n; attributes := a;
     style := style n; textContent := textContent n; children := children n;
     value := value n |}.

Definition set_style (s : gmap jsstring jsstring) (n : Node) : Node :=
  {| tagName := tagName n; classes := classes n; attributes := attributes n;
     style := s; textContent := textContent n; children := children n;
     value := value n |}.

Definition set_content (t : jsstring) (cs : list loc) (n : Node) : Node :=
  {| tagName := tagName n; classes := classes n; attributes := attributes n;
     style := style n; textContent := t; children := cs; value := value n |}.

Definition set_value (v : jsstring) (n : Node) : Node :=
  {| tagName := tagName n; classes := classes n; attributes := attributes n;
     style := style n; textContent := textContent n; children := children n;
     value := v |}.

(** The page. [find scope sel] is what [scope.querySelector(sel)] returns
    ([None] as scope is the document); the elements the script looks up are
    part of the page as loaded and the script never removes them. *)
Record Page := {
  nodes : gmap loc Node;
  nextNode : loc;
  find : option loc -> jsstring -> option loc;
  appState : App.AppState;
  alerts : list jsstring;                  (* the messages [alert] has shown *)
  defaultPrevented : bool                  (* of the event being handled *)
}.

Definition set_nodes (ns : gmap loc Node) (pg : Page) : Page :=
  {| nodes := ns; nextNode := nextNode pg; find := find pg;
     appState := appState pg; alerts := alerts pg;
     defaultPrevented := defaultPrevented pg |}.

Definition set_nextNode (l : loc) (pg : Page) : Page :=
  {| nodes := nodes pg; nextNode := l; find := find pg;
     appState := appState pg; alerts := alerts pg;
     defaultPrevented := defaultPrevented pg |}.

Definition set_appState (st : App.AppState) (pg : Page) : Page :=
  {| nodes := nodes pg; nextNode := nextNode pg; find := find pg;
     appState := st; alerts := alerts pg;
     defaultPrevented := defaultPrevented pg |}.

Definition set_alerts (a : list jsstring) (pg : Page) : Page :=
  {| nodes := nodes pg; nextNode := nextNode pg; find := find pg;
     appState := appState pg; alerts := a;
     defaultPrevented := defaultPrevented pg |}.

Definition set_defaultPrevented (b : bool) (pg : Page) : Page :=
  {| nodes := nodes pg; nextNode := nextNode pg; find := find pg;
     appState := appState pg; alerts := alerts pg;
     defaultPrevented := b |}.

(** Computations over the page that may throw. *)
Definition M (A : Type) : Type := Page -> completion A * Page.

Definition ret {A} (a : A) : M A := fun pg => (Normal a, pg).

Definition bind {A B} (m : M A) (k : A -> M B) : M B :=
  fun pg =>
    match m pg with
    | (Normal a, pg') => k a pg'
    | (Abrupt e, pg') => (Abrupt e, pg')
    end.

Definition throw {A} (e : exn) : M A := fun pg => (Abrupt e, pg).

Definition gets {A} (f : Page -> A) : M A := fun pg => (Normal (f pg), pg).

Definition modify (f : Page -> Page) : M unit := fun pg => (Normal tt, f pg).

Notation "'do' x <- c ; k" := (bind c (fun x => k))
  (at level 10, x name, c at level 100, k at level 200, only parsing).
Notation "c ;; k" := (bind c (fun _ => k))
  (at level 100, k at level 200, right associativity, only parsing).

(** The page a computation leaves. *)
Definition exec {A} (m : M A) (pg : Page) : Page := snd (m pg).

(** Access to a node through a reference that may be [null]: a read or a
    write through [null] throws. *)
Definition withNode {A} (r : option loc) (k : loc -> M A) : M A :=
  match r with
  | None => throw TypeError
  | Some l => k l
  end.

Definition update (r : option loc) (f : Node -> Node) : M unit :=
  withNode r (fun l =>
    modify (fun pg => set_nodes (<[l := f (nodes pg !!! l)]> (nodes pg)) pg)).

Definition read {A} (r : option loc) (f : Node -> A) : M A :=
  withNode r (fun l => gets (fun pg => f (nodes pg !!! l))).

(** [!r] for a reference *)
Definition missing (r : option loc) : bool := negb (bool_decide (is_Some r)).

(** [document.querySelector(sel)] and [scope.querySelector(sel)] *)
Definition querySelector (sel : jsstring) : M (option loc) :=
  gets (fun pg => find pg None sel).

Definition querySelectorIn (scope : option loc) (sel : jsstring) : M (option loc) :=
  withNode scope (fun l => gets (fun pg => find pg (Some l) sel)).

(** [document.createElement(tag)] and [document.createDocumentFragment()]:
    a new node, not yet in the tree. *)
Definition createElement (tag : jsstring) : M (option loc) :=
  fun pg =>
    let l := nextNode pg in
    (Normal (Some l),
     set_nextNode (Pos.succ l) (set_nodes (<[l := emptyNode tag]> (nodes pg)) pg)).

Definition fragmentTag : jsstring := lit "#document-fragment".

Definition createDocumentFragment : M (option loc) := createElement fragmentTag.

(** [el.innerHTML = ''] *)
Definition clearInnerHTML (r : option loc) : M unit :=
  update r (set_content [] []).

(** [el.textContent = v]: the text replaces every child; [null] and
    [undefined] give the empty text, other values their string. *)
Definition setTextContent (r : option loc) (v : Js.value) : M unit :=
  update r (set_content (match v with
                         | VNull | VUndefined => []
                         | _ => Conv.toString v
                         end) []).

(** [el.className = s], for a single class name. *)
Definition setClassName (r : option loc) (s : jsstring) : M unit :=
  update r (set_classes [s]).

(** [el.classList.add(c)] and [el.classList.remove(c)] *)
Definition classList_add (r : option loc) (c : jsstring) : M unit :=
  update r (fun n =>
    if bool_decide (c ∈ classes n) then n else set_classes (classes n ++ [c]) n).

Definition classList_remove (r : option loc) (c : jsstring) : M unit :=
  update r (fun n =>
    set_classes (List.filter (fun c' => negb (bool_decide (c' = c))) (classes n)) n).

(** [el.setAttribute(k, v)], [el.removeAttribute(k)], [el.getAttribute(k)];
    [el.href = v] sets the attribute of that name. *)
Definition setAttribute (r : option loc) (k : jsstring) (v : Js.value) : M unit :=
  update r (fun n => set_attributes (<[k := Conv.toString v]> (attributes n)) n).

Definition removeAttribute (r : option loc) (k : jsstring) : M unit :=
  update r (fun n => set_attributes (delete k (attributes n)) n).

Definition getAttribute (r : option loc) (k : jsstring) : M (option jsstring) :=
  read r (fun n => attributes n !! k).

(** [el.style.prop = s] *)
Definition setStyle (r : option loc) (prop s : jsstring) : M unit :=
  update r (fun n => set_style (<[prop := s]> (style n)) n).

(** [parent.appendChild(child)]. A fragment hands its children over and is
    left empty. Every node the script appends is one it has just created, so
    there is no former parent to take it from. *)
Definition appendChild (parent child : option loc) : M unit :=
  withNode parent (fun p =>
  withNode child (fun c =>
    modify (fun pg =>
      let cn := nodes pg !!! c in
      if bool_decide (tagName cn = fragmentTag)
      then
        let ns := <[c := set_content (textContent cn) [] cn]> (nodes pg) in
        let pn := ns !!! p in
        set_nodes (<[p := set_content (textContent pn) (children pn ++ children cn) pn]> ns) pg
      else
        let pn := nodes pg !!! p in
        set_nodes (<[p := set_content (textContent pn) (children pn ++ [c]) pn]>
                     (nodes pg)) pg))).

(** [alert(s)] and [event.preventDefault()] *)
Definition alert (s : jsstring) : M unit :=
  modify (fun pg => set_alerts (alerts pg ++ [s]) pg).

Definition preventDefault : M unit := modify (set_defaultPrevented true).

(** [el.closest(sel)] for a class selector, on an event target given with
    its ancestors, innermost first: the first of them that has the class. *)
Definition closestClass (path : list loc) (c : jsstring) : M (option loc) :=
  gets (fun pg =>
    List.find (fun l => bool_decide (c ∈ classes (nodes pg !!! l))) path).

End Dom.

(* ================================================================== *)
(** ** DOM rendering and card interaction *)
(* ================================================================== *)

Module Render.
Import Js Dom.

(** [`url('${v}')`] *)
Definition cssUrl (v : Js.value) : jsstring :=
  lit "url('" ++ Conv.toString v ++ lit "')".


(** [xs.forEach(f)] *)
Fixpoint forEach {A : Type} (xs : list A) (f : A -> M unit) : M unit :=
  match xs with
  | [] => ret tt
  | a :: xs' => f a;; forEach xs' f
  end.


(** [const createProjectCard = (project) => { ... }] *)
Definition createProjectCard (project : Projects.Project) : M (option loc) :=
  do card <- createElement (lit "div");
  setClassName card (lit "projectCard");;
  setAttribute card (lit "data-id") (Projects.id project);;
  setStyle card (lit "backgroundImage") (cssUrl (Projects.cardImage project));;
  setStyle card (lit "backgroundSize") (lit "cover");;
  setStyle card (lit "backgroundPosition") (lit "center");;
  do title <- createElement (lit "h4");
  setTextContent title (Projects.name project);;
  appendChild card title;;
  do description <- createElement (lit "p");
  setTextContent description (Projects.short project);;
  appendChild card description;;
  ret card.

(** [const renderProjectsList = (projects) => { ... }] *)
Definition renderProjectsList (projects : list Projects.Project) : M unit :=
  do projectsList <- querySelector SELECTORS.projectsList;
  if missing projectsList then ret tt
  else
    clearInnerHTML projectsList;;
    do fragment <- createDocumentFragment;
    forEach projects (fun project =>
      do card <- createProjectCard project;
      appendChild fragment card);;
    appendChild projectsList fragment.

(** [const renderSpotlight = (project) => { ... }] *)
Definition renderSpotlight (project : Projects.Project) : M unit :=
  do spotlight <- querySelector SELECTORS.projectSpotlight;
  do titlesContainer <- querySelector SELECTORS.spotlightTitles;
  if missing spotlight || missing titlesContainer then ret tt
  else
    setStyle spotlight (lit "backgroundImage")
      (cssUrl (Projects.spotlightImage project));;
    setStyle spotlight (lit "backgroundSize") (lit "cover");;
    setStyle spotlight (lit "backgroundPosition") (lit "center");;
    do title <- querySelectorIn titlesContainer (lit "h3");
    (if missing title then ret tt
     else setTextContent title (Projects.name project));;
    do description <- querySelectorIn titlesContainer (lit "p");
    (if missing description then ret tt
     else setTextContent description (Projects.long project));;
    do link <- querySelectorIn titlesContainer (lit "a");
    (if missing link then ret tt
     else if toBoolean (Projects.url project)
             && Conv.differsFromString (Projects.url project) (lit "#")
     then
       setAttribute link (lit "href") (Projects.url project);;
       removeAttribute link (lit "aria-disabled")
     else
       setAttribute link (lit "href") (VStr (lit "#"));;
       setAttribute link (lit "aria-disabled") (VStr (lit "true")));;
    modify (fun pg =>
      set_appState (App.set_currentProjectId (Projects.id project) (appState pg)) pg).

(** [const handleCardClick = (event) => { ... }], the event being given by
    its target and the target's ancestors, innermost first. *)
Definition handleCardClick (path : list loc) : M unit :=
  do card <- closestClass path (lit "projectCard");
  if missing card then ret tt
  else
    do projectId <- getAttribute card (lit "data-id");
    do projects <- gets (fun pg => App.projectsData (appState pg));
    match List.find (fun p => Conv.strictEqAttr (Projects.id p) projectId) projects with
    | Some project => renderSpotlight project
    | None => ret tt
    end.

End Render.

(* ================================================================== *)
(** ** The contact form *)
(* ================================================================== *)

Module Forms.
Import Js Dom Validation.

(** [`Characters: ${length}/${MESSAGE_LIMIT}`] *)
Definition counterText (length : nat) : jsstring :=
  lit ("Characters: " +:+ pretty length +:+ "/" +:+ pretty MESSAGE_LIMIT).

(** [const updateCharCounter = () => { ... }] *)
Definition updateCharCounter : M unit :=
  do messageInput <- querySelector SELECTORS.messageInput;
  do charCounter <- querySelector SELECTORS.charRemaining;
  if missing messageInput || missing charCounter then ret tt
  else
    do v <- read messageInput value;
    let length := List.length v in
    let remaining := MESSAGE_LIMIT - Z.of_nat length in
    setTextContent charCounter (VStr (counterText length));;
    if remaining <? 0
    then classList_add charCounter (lit "error")
    else classList_remove charCounter (lit "error").

(** [const showError = (element, message) => { ... }] *)
Definition showError (element : option loc) (message : string) : M unit :=
  if missing element then ret tt
  else
    setTextContent element (VStr (lit message));;
    setStyle element (lit "display") (lit "block").

(** [const clearError = (element) => { ... }] *)
Definition clearError (element : option loc) : M unit :=
  if missing element then ret tt
  else
    setTextContent element (VStr []);;
    setStyle element (lit "display") (lit "none").

(** [const handleSubmit = (event) => { ... }] *)
Definition handleSubmit : M unit :=
  preventDefault;;
  do emailInput <- querySelector SELECTORS.emailInput;
  do messageInput <- querySelector SELECTORS.messageInput;
  do emailError <- querySelector SELECTORS.emailError;
  do messageError <- querySelector SELECTORS.messageError;
  if missing emailInput || missing messageInput then ret tt
  else
    clearError emailError;;
    clearError messageError;;
    do emailValue <- read emailInput value;
    let emailValidation := Email.validateEmail emailValue in
    do messageValue <- read messageInput value;
    let messageValidation := validateMessage messageValue in
    let isFormValid := true in
    do isFormValid <-
      (if negb (isValid emailValidation)
       then showError emailError (message emailValidation);; ret false
       else ret isFormValid);
    do isFormValid <-
      (if negb (isValid messageValidation)
       then showError messageError (message messageValidation);; ret false
       else ret isFormValid);
    if isFormValid then
      alert (lit "Submission successful!");;
      update emailInput (set_value []);;
      update messageInput (set_value []);;
      updateCharCounter
    else ret tt.

End Forms.

(* ================================================================== *)
(** ** Invariants of the scroll controller's wiring *)
(* ================================================================== *)

Module ScrollInv.
Import Scroll.

(** A session's callback scrolls container [c] in direction 1 or -1. *)
Definition aimsAt (c : option loc) (container : option loc) (direction : Z) : Prop :=
  container = c /\ (direction = 1 \/ direction = -1).

(** Every registered start handler and every active timer aims at [c]. *)
Definition wiredTo (c : option loc) (w : World) : Prop :=
  (forall l, In l (listeners w) ->
     match l_handler l with
     | HStart container direction => aimsAt c container direction
     | HStop => True
     end) /\
  (forall h cb, intervals w !! h = Some cb ->
     aimsAt c (cb_container cb) (cb_direction cb)).

(** A press of the primary button on an arrow, as the host delivers it:
    [pointerdown], then [mousedown]. *)
Definition press (arrow : loc) : list event :=
  [Dispatch (Node arrow) pointerdown; Dispatch (Node arrow) mousedown].

End ScrollInv.

(* ================================================================== *)
(** ** Reasoning about page computations *)
(* ================================================================== *)

Module DomLogic.
Import Js Dom.

(** [m] returns normally from [pg], with a result and a page that satisfy
    [Q]. *)
Definition returns {A : Type} (m : M A) (pg : Page) (Q : A -> Page -> Prop) : Prop :=
  exists a pg', m pg = (Normal a, pg') /\ Q a pg'.

(** Everything of the page but its nodes and the allocation counter. *)
Definition sameShell (pg pg' : Page) : Prop :=
  find pg' = find pg /\ appState pg' = appState pg /\
  alerts pg' = alerts pg /\ defaultPrevented pg' = defaultPrevented pg.

(** No node changes in the part [proj] shows. *)
Definition keeps {A : Type} (proj : Node -> A) (pg pg' : Page) : Prop :=
  forall l, proj (nodes pg' !!! l) = proj (nodes pg !!! l).

(** No node changes but, possibly, the one [r] refers to. *)
Definition onlyAt (r : option loc) (pg pg' : Page) : Prop :=
  forall l, r <> Some l -> nodes pg' !!! l = nodes pg !!! l.

End DomLogic.

(* ================================================================== *)
(** ** A sample page *)
(* ================================================================== *)

(** A page with every element the script looks up: [#aboutMe] (1),
    [#projectList] (2), [#projectSpotlight] (3), [#spotlightTitles] (4) with
    its [h3] (5), [p] (6) and [a] (7), the e-mail field (8), the message
    field (9), the two error elements (10, 11) and the counter (12). *)
Module Sample.
Import Js Dom.

Definition answers (scope : option loc) (sel : jsstring) : option loc :=
  match scope with
  | None =>
      if bool_decide (sel = SELECTORS.aboutMe) then Some 1%positive
      else if bool_decide (sel = SELECTORS.projectsList) then Some 2%positive
      else if bool_decide (sel = SELECTORS.projectSpotlight) then Some 3%positive
      else if bool_decide (sel = SELECTORS.spotlightTitles) then Some 4%positive
      else if bool_decide (sel = SELECTORS.emailInput) then Some 8%positive
      else if bool_decide (sel = SELECTORS.messageInput) then Some 9%positive
      else if bool_decide (sel = SELECTORS.emailError) then Some 10%positive
      else if bool_decide (sel = SELECTORS.messageError) then Some 11%positive
      else if bool_decide (sel = SELECTORS.charRemaining) then Some 12%positive
      else None
  | Some 4%positive =>
      if bool_decide (sel = lit "h3") then Some 5%positive
      else if bool_decide (sel = lit "p") then Some 6%positive
      else if bool_decide (sel = lit "a") then Some 7%positive
      else None
  | Some _ => None
  end.

(** The page with the two fields filled in and the given projects loaded. *)
Definition page (email message : jsstring) (projects : list Projects.Project) : Page :=
  {| nodes := <[8%positive := set_value email (emptyNode (lit "input"))]>
                (<[9%positive := set_value message (emptyNode (lit "textarea"))]> ∅);
     nextNode := 20%positive;
     find := answers;
     appState := App.set_projectsData projects App.initialState;
     alerts := [];
     defaultPrevented := false |}.

End Sample.

(* ================================================================== *)
(** ** The shape of a rendered card *)
(* ================================================================== *)

Module RenderInv.
Import Js Dom.

(** The text [textContent = v] stores. *)
Definition textOf (v : Js.value) : jsstring :=
  match v with
  | VNull | VUndefined => []
  | _ => Conv.toString v
  end.



End RenderInv.

(* ================================================================== *)
(** ** Properties of [normalizeProject] *)
(* ================================================================== *)

Module ProjectsSpec.
Import Js Projects.

(** What a raw record [m] contributes for property [k] under default [d]. *)
Lemma or_lookup (m : gmap jsstring value) (k : jsstring) (d : value) :
  or (default VUndefined (m !! k)) d =
  match m !! k with
  | Some v => if toBoolean v then v else d
  | None => d
  end.
Proof. unfold or. destruct (m !! k) as [v|]; reflexivity. Qed.

(** On an object no property read throws, and every field is one [||]. *)
Lemma normalizeProject_obj (m : gmap jsstring value) :
  normalizeProject (VObj m) = Normal {|
    id := or (default VUndefined (m !! lit "project_id")) (VStr (lit "unknown"));
    name := or (default VUndefined (m !! lit "project_name"))
               (VStr (lit "Untitled Project"));
    short := or (default VUndefined (m !! lit "short_description"))
                (VStr (lit "No description available."));
    long := or (default VUndefined (m !! lit "long_description"))
               (VStr (lit "Detailed information coming soon."));
    url := or (default VUndefined (m !! lit "url")) (VStr (lit "#"));
    cardImage := or (default VUndefined (m !! lit "card_image"))
                    (VStr (lit "/images/card_placeholder_bg.webp"));
    spotlightImage := or (default VUndefined (m !! lit "spotlight_image"))
                         (VStr (lit "/images/spotlight_placeholder_bg.webp"))
  |}.
Proof. reflexivity. Qed.

(** Each row of the field table, read off the normalized record. *)
Lemma normalizeProject_row (m : gmap jsstring value) (k : jsstring)
    (proj : Project -> value) (d : value) :
  In (k, proj, d) fieldTable ->
  exists p, normalizeProject (VObj m) = Normal p /\
            proj p = or (default VUndefined (m !! k)) d.
Proof.
  intros Hrow. eexists. split; [apply normalizeProject_obj|].
  unfold fieldTable in Hrow.
  repeat (destruct Hrow as [Hrow|Hrow];
          [injection Hrow as <- <- <-; reflexivity|]).
  destruct Hrow.
Qed.

(** A null element of the projects array makes [normalizeProject] throw. *)
Example normalizeProject_null : normalizeProject VNull = Abrupt TypeError.
Proof. reflexivity. Qed.

(** C8, as stated, fails: a record whose [project_name] is present and is the
    empty string does not keep that value; its name is the default. *)
Lemma normalizeProject_present_not_kept :
  let raw : gmap jsstring value := {[ lit "project_name" := VStr [] ]} in
  raw !! lit "project_name" = Some (VStr []) /\
  exists p, normalizeProject (VObj raw) = Normal p /\
            name p = VStr (lit "Untitled Project") /\
            name p <> VStr [].
Proof.
  split; [reflexivity|].
  eexists. split; [reflexivity|]. split; [reflexivity|]. discriminate.
Qed.

(** C8 (amended): for every raw project record, normalization returns a
    record in which each of the seven fields equals the source value when it
    is present and truthy, and the listed default (the placeholder image
    paths for the two images) when it is absent or falsy. *)
Theorem normalizeProject_fields (m : gmap jsstring value) :
  exists p, normalizeProject (VObj m) = Normal p /\
    Forall (fun row : jsstring * (Project -> value) * value =>
              let '(k, proj, d) := row in
              proj p = match m !! k with
                       | Some v => if toBoolean v then v else d
                       | None => d
                       end)
           fieldTable.
Proof.
  eexists. split; [apply normalizeProject_obj|].
  unfold fieldTable.
  repeat (apply Forall_cons; split; [apply or_lookup|]).
  apply Forall_nil_2.
Qed.

(** C10: the default replaces every falsy field value, not only an absent
    one: whenever a field's source value is falsy (the empty string, 0,
    false, null), the normalized field is the default. *)
Theorem normalizeProject_falsy_default (m : gmap jsstring value)
    (k : jsstring) (proj : Project -> value) (d v : value)
    (Hrow : In (k, proj, d) fieldTable)
    (Hpresent : m !! k = Some v)
    (Hfalsy : toBoolean v = false) :
  exists p, normalizeProject (VObj m) = Normal p /\ proj p = d.
Proof.
  destruct (normalizeProject_row m k proj d Hrow) as (p & Hp & Hproj).
  exists p. split; [exact Hp|].
  rewrite Hproj, or_lookup, Hpresent, Hfalsy. reflexivity.
Qed.

(** An empty [project_name] becomes ['Untitled Project']. *)
Lemma normalizeProject_falsy_default_witness :
  let raw : gmap jsstring value := {[ lit "project_name" := VStr [] ]} in
  In (lit "project_name", name, VStr (lit "Untitled Project")) fieldTable /\
  raw !! lit "project_name" = Some (VStr []) /\
  toBoolean (VStr []) = false /\
  exists p, normalizeProject (VObj raw) = Normal p /\
            name p = VStr (lit "Untitled Project").
Proof.
  intros raw.
  assert (Hrow : In (lit "project_name", name, VStr (lit "Untitled Project"))
                    fieldTable) by (right; left; reflexivity).
  assert (Hpresent : raw !! lit "project_name" = Some (VStr []))
    by reflexivity.
  split; [exact Hrow|]. split; [exact Hpresent|]. split; [reflexivity|].
  exact (normalizeProject_falsy_default raw _ _ _ (VStr []) Hrow Hpresent
           eq_refl).
Defined.

(** An empty [card_image] becomes the placeholder path. *)
Example normalizeProject_empty_card_image :
  exists p,
    normalizeProject (VObj {[ lit "card_image" := VStr [] ]}) = Normal p /\
    cardImage p = VStr (lit "/images/card_placeholder_bg.webp").
Proof. eexists. split; reflexivity. Qed.

End ProjectsSpec.

(* ================================================================== *)
(** ** Properties of [validateMessage] *)
(* ================================================================== *)

Module ValidationSpec.
Import Validation.

(** No white-space code unit belongs to the class [a-zA-Z0-9@._-]. *)
Lemma whiteSpace_illegal (c : N) :
  isWhiteSpace c = true -> REGEX.legalChar c = false.
Proof.
  unfold isWhiteSpace, REGEX.legalChar, REGEX.between. intros Hws.
  apply not_true_is_false. intros Hlegal.
  repeat rewrite ?orb_true_iff, ?andb_true_iff, ?N.leb_le, ?N.eqb_eq in Hws.
  repeat rewrite ?orb_true_iff, ?andb_true_iff, ?N.leb_le, ?N.eqb_eq in Hlegal.
  lia.
Qed.

Lemma illegalChars_test_intro (s : jsstring) (c : N) :
  In c s -> REGEX.legalChar c = false -> REGEX.illegalChars_test s = true.
Proof.
  intros Hin Hbad. unfold REGEX.illegalChars_test.
  apply existsb_exists. exists c. rewrite Hbad. split; [exact Hin|reflexivity].
Qed.

(** C9: [validateMessage] rejects every string that contains a code unit
    outside [a-zA-Z0-9@._-]; white space is outside it, so no message with a
    space between words validates, whatever its length. *)
Theorem validateMessage_rejects_illegal (s : jsstring) (c : N)
    (Hin : In c s)
    (Hbad : REGEX.legalChar c = false \/ isWhiteSpace c = true) :
  isValid (validateMessage s) = false.
Proof.
  assert (Hill : REGEX.legalChar c = false)
    by (destruct Hbad as [H|H]; [exact H|exact (whiteSpace_illegal c H)]).
  unfold validateMessage.
  destruct (isEmpty (trim s)); [reflexivity|].
  rewrite (illegalChars_test_intro s c Hin Hill). reflexivity.
Qed.

(** "hello world": non-empty, eleven code units, one of them a space. *)
Lemma validateMessage_rejects_illegal_witness :
  In 32%N (Js.lit "hello world") /\
  (REGEX.legalChar 32 = false \/ isWhiteSpace 32 = true) /\
  isEmpty (trim (Js.lit "hello world")) = false /\
  (Z.of_nat (List.length (Js.lit "hello world")) <= MESSAGE_LIMIT) /\
  isValid (validateMessage (Js.lit "hello world")) = false.
Proof.
  assert (Hin : In 32%N (Js.lit "hello world")) by (vm_compute; tauto).
  split; [exact Hin|]. split; [right; reflexivity|].
  split; [reflexivity|]. split; [vm_compute; discriminate|].
  exact (validateMessage_rejects_illegal _ 32%N Hin (or_intror eq_refl)).
Defined.

(** Without the space the same words validate. *)
Example validateMessage_accepts_plain :
  validateMessage (Js.lit "hello") = {| isValid := true; message := "" |}.
Proof. reflexivity. Qed.

End ValidationSpec.

(* ================================================================== *)
(** ** Properties of the continuous-scroll controller *)
(* ================================================================== *)

Module ScrollSpec.
Import Js Scroll.

(** *** The operations, as world transformers *)

Lemma getAxis_eq (w : World) :
  getAxis w = (Normal (if 1024 <=? viewportWidth w then axis_y else axis_x), w).
Proof. reflexivity. Qed.

Lemma startContinuousScroll_eq (c : option loc) (d : Z) (w : World) :
  startContinuousScroll c d w =
  (Normal tt,
   {| scrollController := Some (nextHandle w);
      intervals := <[nextHandle w := {| cb_container := c; cb_direction := d |}]>
                     (match scrollController w with
                      | Some h => delete h (intervals w)
                      | None => intervals w
                      end);
      nextHandle := Pos.succ (nextHandle w);
      heap := heap w; viewportWidth := viewportWidth w;
      document := document w; listeners := listeners w |}).
Proof.
  unfold startContinuousScroll, bind, gets.
  destruct (scrollController w); reflexivity.
Qed.

Lemma stopContinuousScroll_eq (w : World) :
  stopContinuousScroll w =
  (Normal tt,
   match scrollController w with
   | Some h => set_scrollController None (set_intervals (delete h (intervals w)) w)
   | None => w
   end).
Proof.
  unfold stopContinuousScroll, bind, gets.
  destruct (scrollController w); reflexivity.
Qed.

(** One tick on an element: the offset along the current axis moves by the
    signed magnitude, the other offset is written back as it was. *)
Lemma scrollByAxis_some (l : loc) (d : Z) (w : World) :
  scrollByAxis (Some l) d w =
  (Normal tt,
   let e := heap w !!! l in
   let step := if 0 <? d then scrollAmount d else - scrollAmount d in
   set_heap (<[l := if 1024 <=? viewportWidth w
                    then {| scrollLeft := scrollLeft e;
                            scrollTop := scrollTop e + step |}
                    else {| scrollLeft := scrollLeft e + step;
                            scrollTop := scrollTop e |}]> (heap w)) w).
Proof.
  unfold scrollByAxis. simpl. unfold bind. rewrite getAxis_eq.
  destruct (1024 <=? viewportWidth w); reflexivity.
Qed.

Lemma scrollByAxis_none (d : Z) (w : World) :
  scrollByAxis None d w = (Normal tt, w).
Proof. reflexivity. Qed.

(** A tick only ever writes the element store. *)
Lemma scrollByAxis_eq (c : option loc) (d : Z) (w : World) :
  exists hp, scrollByAxis c d w = (Normal tt, set_heap hp w).
Proof.
  destruct c as [l|].
  - rewrite scrollByAxis_some. eexists. reflexivity.
  - exists (heap w). destruct w; reflexivity.
Qed.

(** *** The slot and the timer table stay consistent *)

Lemma consistent_start (c : option loc) (d : Z) (w : World) :
  consistent w ->
  intervals (task (startContinuousScroll c d) w) =
    {[ nextHandle w := {| cb_container := c; cb_direction := d |} ]}.
Proof.
  unfold consistent, task. rewrite startContinuousScroll_eq. simpl.
  destruct (scrollController w) as [h|].
  - intros [cb ->]. rewrite delete_singleton_eq. apply insert_empty.
  - intros ->. apply insert_empty.
Qed.

Lemma consistent_stop (w : World) :
  consistent w -> intervals (task stopContinuousScroll w) = ∅.
Proof.
  unfold consistent, task. rewrite stopContinuousScroll_eq. simpl.
  destruct (scrollController w) as [h|].
  - intros [cb ->]. simpl. apply delete_singleton_eq.
  - intros ->. reflexivity.
Qed.

Lemma stop_slot (w : World) :
  scrollController (task stopContinuousScroll w) = None.
Proof.
  unfold task. rewrite stopContinuousScroll_eq. simpl.
  destruct (scrollController w) eqn:E; [reflexivity|exact E].
Qed.

Lemma start_slot (c : option loc) (d : Z) (w : World) :
  scrollController (task (startContinuousScroll c d) w) = Some (nextHandle w).
Proof. unfold task. rewrite startContinuousScroll_eq. reflexivity. Qed.

Lemma runHandler_consistent (h : handler) (w : World) :
  consistent w -> consistent (task (runHandler h) w).
Proof.
  intros Hc. destruct h as [c d|]; simpl; unfold consistent.
  - rewrite start_slot, (consistent_start c d w Hc). eauto.
  - rewrite stop_slot. exact (consistent_stop w Hc).
Qed.

Lemma scrollByAxis_consistent (c : option loc) (d : Z) (w : World) :
  consistent w -> consistent (task (scrollByAxis c d) w).
Proof.
  destruct (scrollByAxis_eq c d w) as [hp E]. unfold task. rewrite E.
  intros Hc. exact Hc.
Qed.

Lemma runHandler_frame (h : handler) (w : World) :
  heap (task (runHandler h) w) = heap w /\
  listeners (task (runHandler h) w) = listeners w /\
  viewportWidth (task (runHandler h) w) = viewportWidth w.
Proof.
  destruct h as [c d|]; simpl; unfold task.
  - rewrite startContinuousScroll_eq. auto.
  - rewrite stopContinuousScroll_eq. destruct (scrollController w); auto.
Qed.

Lemma handles_allocated_start (c : option loc) (d : Z) (w : World) :
  handles_allocated w -> handles_allocated (task (startContinuousScroll c d) w).
Proof.
  unfold handles_allocated, task. rewrite startContinuousScroll_eq. simpl.
  intros Hw h cb. rewrite lookup_insert.
  destruct (decide (nextHandle w = h)) as [<-|Hne]; [lia|].
  intros Hl. assert (intervals w !! h = Some cb) as Hin.
  { destruct (scrollController w) as [h0|]; [|exact Hl].
    rewrite lookup_delete in Hl.
    destruct (decide (h0 = h)); [discriminate|exact Hl]. }
  specialize (Hw h cb Hin). lia.
Qed.

Lemma handles_allocated_stop (w : World) :
  handles_allocated w -> handles_allocated (task stopContinuousScroll w).
Proof.
  unfold handles_allocated, task. rewrite stopContinuousScroll_eq. simpl.
  intros Hw h cb. destruct (scrollController w) as [h0|]; [|apply Hw].
  simpl. rewrite lookup_delete.
  destruct (decide (h0 = h)); [discriminate|apply Hw].
Qed.

(** Every world reached by calls from the initial one is consistent. *)
Lemma performAll_invariant (cs : list call) (w : World) :
  consistent w -> handles_allocated w ->
  consistent (performAll cs w) /\ handles_allocated (performAll cs w).
Proof.
  revert w. induction cs as [|c cs IH]; intros w Hc Ha; [auto|].
  simpl. apply IH; destruct c as [k d|]; simpl.
  - exact (runHandler_consistent (HStart k d) w Hc).
  - exact (runHandler_consistent HStop w Hc).
  - exact (handles_allocated_start k d w Ha).
  - exact (handles_allocated_stop w Ha).
Qed.

Lemma initial_consistent doc hp vw : consistent (initial doc hp vw).
Proof. reflexivity. Qed.

Lemma initial_allocated doc hp vw : handles_allocated (initial doc hp vw).
Proof. intros h cb. simpl. rewrite lookup_empty. discriminate. Qed.

(** *** The event loop preserves the invariants *)

Lemma foldl_handlers (t : target) (e : evname) (ls : list Listener) (w : World) :
  consistent w ->
  let w' := foldl (fun w' l =>
                     if decide (l_target l = t /\ l_type l = e)
                     then task (runHandler (l_handler l)) w'
                     else w') w ls in
  consistent w' /\ heap w' = heap w /\ listeners w' = listeners w /\
  viewportWidth w' = viewportWidth w.
Proof.
  revert w. induction ls as [|l ls IH]; intros w Hc; simpl; [auto|].
  destruct (decide (l_target l = t /\ l_type l = e)) as [_|_]; [|exact (IH w Hc)].
  destruct (runHandler_frame (l_handler l) w) as (Hh & Hl & Hv).
  destruct (IH _ (runHandler_consistent (l_handler l) w Hc)) as (Hc' & Hh' & Hl' & Hv').
  repeat split; [exact Hc'|congruence..].
Qed.

Lemma dispatch_frame (t : target) (e : evname) (w : World) :
  consistent w ->
  consistent (dispatch t e w) /\ heap (dispatch t e w) = heap w /\
  listeners (dispatch t e w) = listeners w /\
  viewportWidth (dispatch t e w) = viewportWidth w.
Proof. intros Hc. exact (foldl_handlers t e (listeners w) w Hc). Qed.

Lemma dispatch_unwired (t : target) (e : evname) (w : World) :
  listeners w = [] -> dispatch t e w = w.
Proof. unfold dispatch. intros ->. reflexivity. Qed.

(** When the window's [resize] listener comes last, the dispatch of
    [resize] ends with [stopContinuousScroll] on a consistent world. *)
Lemma dispatch_resize_clears (w : World) :
  consistent w -> last (listeners w) = Some resizeStop ->
  scrollController (dispatch Window resize w) = None /\
  intervals (dispatch Window resize w) = ∅.
Proof.
  intros Hc Hlast. apply last_Some in Hlast as [pre Hpre].
  unfold dispatch. rewrite Hpre, foldl_snoc. simpl.
  destruct (decide (Window = Window /\ resize = resize)) as [_|Hn];
    [|exfalso; apply Hn; split; reflexivity].
  destruct (foldl_handlers Window resize pre w Hc) as (Hc' & _).
  split; [apply stop_slot|exact (consistent_stop _ Hc')].
Qed.

Lemma fire_idle (h : handle) (w : World) :
  intervals w = ∅ -> step w (Fire h) = w.
Proof. intros E. simpl. rewrite E, lookup_empty. reflexivity. Qed.

Lemma step_invariant (ev : event) (w : World) :
  consistent w -> wired w -> consistent (step w ev) /\ wired (step w ev).
Proof.
  intros Hc Hw. destruct ev as [t e|width|h]; simpl.
  - destruct (dispatch_frame t e w Hc) as (Hc' & _ & Hl & _).
    split; [exact Hc'|]. destruct Hw as [[Hnil Hsc]|Hlast].
    + rewrite (dispatch_unwired t e w Hnil). left. auto.
    + right. rewrite Hl. exact Hlast.
  - assert (Hcv : consistent (set_viewportWidth width w)) by exact Hc.
    destruct (dispatch_frame Window resize _ Hcv) as (Hc' & _ & Hl & _).
    split; [exact Hc'|]. destruct Hw as [[Hnil Hsc]|Hlast].
    + rewrite (dispatch_unwired Window resize (set_viewportWidth width w) Hnil).
      left. auto.
    + right. rewrite Hl. exact Hlast.
  - destruct (intervals w !! h) as [cb|]; [|auto].
    destruct (scrollByAxis_eq (cb_container cb) (cb_direction cb) w) as [hp E].
    unfold task. rewrite E. auto.
Qed.

Lemma run_invariant (tr : list event) (w : World) :
  consistent w -> wired w -> consistent (run tr w) /\ wired (run tr w).
Proof.
  revert w. induction tr as [|ev tr IH]; intros w Hc Hw; [auto|].
  simpl. destruct (step_invariant ev w Hc Hw) as [Hc' Hw']. exact (IH _ Hc' Hw').
Qed.

Lemma boot_invariant doc hp vw :
  consistent (boot doc hp vw) /\ wired (boot doc hp vw).
Proof.
  unfold boot, task, setupArrowScrolling, bind, querySelector, gets, consistent,
    wired. simpl.
  destruct (doc projectNavArrows) as [ac|], (doc projectsList) as [pl|];
    simpl; auto.
  destruct (doc arrowLeft) as [la|], (doc arrowRight) as [ra|];
    simpl; split; solve [reflexivity | right; reflexivity].
Qed.

Lemma run_fires_idle (hs : list handle) (w : World) :
  intervals w = ∅ -> run (Fire <$> hs) w = w.
Proof.
  intros E. induction hs as [|h hs IH]; [reflexivity|].
  simpl. rewrite E, lookup_empty. exact IH.
Qed.

Lemma foldl_stop (t : target) (e : evname) (ls : list Listener) (w : World) :
  consistent w ->
  forallb (fun l => implb (listens l t e) (isStop (l_handler l))) ls = true ->
  let w' := foldl (fun w' l =>
                     if decide (l_target l = t /\ l_type l = e)
                     then task (runHandler (l_handler l)) w'
                     else w') w ls in
  (existsb (fun l => listens l t e) ls = true -> idle w') /\
  (idle w -> idle w').
Proof.
  revert w. induction ls as [|l ls IH]; intros w Hc Hall; simpl.
  - split; [discriminate|auto].
  - simpl in Hall. apply andb_true_iff in Hall as [Hl Hall].
    unfold listens in *.
    destruct (decide (l_target l = t /\ l_type l = e)) as [Hm|Hm].
    + rewrite (bool_decide_eq_true_2 _ Hm) in *. simpl in Hl.
      destruct (l_handler l); [discriminate|]. simpl.
      assert (Hi : idle (task stopContinuousScroll w))
        by (split; [apply stop_slot|exact (consistent_stop w Hc)]).
      destruct (IH _ (runHandler_consistent HStop w Hc) Hall) as [_ Hkeep].
      split; intros _; exact (Hkeep Hi).
    + rewrite (bool_decide_eq_false_2 _ Hm). simpl. exact (IH w Hc Hall).
Qed.

(** *** The claims *)

(** C1: at most one scroll session is active at any time. After any sequence
    of start/stop calls there is at most one active timer; a further
    [startContinuousScroll] returns normally and leaves exactly one timer,
    the new session's, named by the slot, the previous session's timer being
    no longer active; and start, start, stop leaves no active timer. *)
Theorem single_session (doc : selector -> option loc) (hp : gmap loc Element)
    (vw : Z) (cs : list call) (c c' : option loc) (d d' : Z) :
  let w := performAll cs (initial doc hp vw) in
  let w1 := task (startContinuousScroll c d) w in
  (size (intervals w) <= 1)%nat /\
  fst (startContinuousScroll c d w) = Normal tt /\
  (exists h, scrollController w1 = Some h /\
             intervals w1 = {[ h := {| cb_container := c; cb_direction := d |} ]}) /\
  size (intervals w1) = 1%nat /\
  match scrollController w with
  | Some h0 => intervals w1 !! h0 = None
  | None => True
  end /\
  idle (performAll [Start c d; Start c' d'; Stop] w).
Proof.
  intros w w1.
  destruct (performAll_invariant cs _ (initial_consistent doc hp vw)
              (initial_allocated doc hp vw)) as [Hc Ha].
  fold w in Hc, Ha.
  assert (E1 : intervals w1 = {[ nextHandle w := {| cb_container := c; cb_direction := d |} ]})
    by exact (consistent_start c d w Hc).
  split.
  { unfold consistent in Hc. destruct (scrollController w) as [h|].
    - destruct Hc as [cb ->]. rewrite map_size_singleton. lia.
    - rewrite Hc, map_size_empty. lia. }
  split; [rewrite startContinuousScroll_eq; reflexivity|].
  split; [exists (nextHandle w); split; [apply start_slot|exact E1]|].
  split; [rewrite E1; apply map_size_singleton|].
  split.
  { destruct (scrollController w) as [h0|] eqn:Esc; [|exact I].
    rewrite E1. apply lookup_singleton_ne.
    unfold consistent in Hc. rewrite Esc in Hc. destruct Hc as [cb Hcb].
    assert (Hlt : (h0 < nextHandle w)%positive).
    { apply (Ha h0 cb). rewrite Hcb. apply lookup_singleton_eq. }
    lia. }
  simpl. fold w1.
  assert (Hc1 : consistent w1) by exact (runHandler_consistent (HStart c d) w Hc).
  assert (Hc2 : consistent (task (startContinuousScroll c' d') w1))
    by exact (runHandler_consistent (HStart c' d') w1 Hc1).
  split; [apply stop_slot|exact (consistent_stop _ Hc2)].
Qed.

(** Start twice, stop once, from the initial world: no timer is left. *)
Example start_start_stop :
  let w := performAll [Start (Some 2%positive) 1; Start (Some 2%positive) (-1); Stop]
             (initial samplePage ∅ 500) in
  scrollController w = None /\ intervals w = ∅.
Proof. split; reflexivity. Qed.

(** C2: [getAxis] answers ['y'] (vertical) exactly when the viewport is at
    least 1024 pixels wide and ['x'] (horizontal) otherwise; it leaves the
    world as it found it and its answer depends on the viewport width
    only. *)
Theorem getAxis_threshold (w : World) :
  exists a, getAxis w = (Normal a, w) /\
    (a = axis_y <-> 1024 <= viewportWidth w) /\
    (a = axis_x <-> viewportWidth w < 1024) /\
    (forall w', viewportWidth w' = viewportWidth w -> fst (getAxis w') = Normal a).
Proof.
  eexists. split; [apply getAxis_eq|].
  destruct (Z.leb_spec 1024 (viewportWidth w)) as [Hge|Hlt].
  - split; [split; [intros _; exact Hge|reflexivity]|].
    split; [split; [discriminate|lia]|].
    intros w' E. rewrite getAxis_eq, E. simpl.
    destruct (Z.leb_spec 1024 (viewportWidth w)); [reflexivity|lia].
  - split; [split; [discriminate|lia]|].
    split; [split; [intros _; exact Hlt|reflexivity]|].
    intros w' E. rewrite getAxis_eq, E. simpl.
    destruct (Z.leb_spec 1024 (viewportWidth w)); [lia|reflexivity].
Qed.

(** At exactly 1024 pixels the axis is vertical; one pixel less, horizontal. *)
Example getAxis_boundary (w : World) :
  fst (getAxis (set_viewportWidth 1024 w)) = Normal axis_y /\
  fst (getAxis (set_viewportWidth 1023 w)) = Normal axis_x.
Proof. split; reflexivity. Qed.

(** C3, as stated, fails: [startContinuousScroll(null, 1)] on the initial
    world is not a no-op; it creates a timer and stores its id in the slot. *)
Lemma start_null_creates_session :
  let w0 := initial samplePage ∅ 500 in
  let r := startContinuousScroll None 1 w0 in
  fst r = Normal tt /\
  scrollController w0 = None /\ intervals w0 = ∅ /\
  scrollController (snd r) = Some 1%positive /\
  intervals (snd r) = {[ 1%positive := {| cb_container := None; cb_direction := 1 |} ]} /\
  size (intervals (snd r)) = 1%nat /\
  snd r <> w0.
Proof.
  repeat (split; [reflexivity|]). discriminate.
Qed.

(** C3 (amended): with an absent container [startContinuousScroll] raises no
    error and moves no scroll offset, now or at any later tick of the timer
    it creates (each tick is a no-op); it does create a session: a new timer
    is active and the slot holds its id. *)
Theorem start_null_silent (d : Z) (w : World) (n : nat) :
  let w' := task (startContinuousScroll None d) w in
  fst (startContinuousScroll None d w) = Normal tt /\
  heap w' = heap w /\
  scrollController w' = Some (nextHandle w) /\
  intervals w' !! nextHandle w = Some {| cb_container := None; cb_direction := d |} /\
  run (Fire <$> replicate n (nextHandle w)) w' = w'.
Proof.
  intros w'. subst w'. unfold task. rewrite startContinuousScroll_eq. simpl.
  split; [reflexivity|]. split; [reflexivity|]. split; [reflexivity|].
  split; [apply lookup_insert_eq|].
  induction n as [|n IH]; [reflexivity|].
  simpl. rewrite lookup_insert_eq. simpl. exact IH.
Qed.

(** Horizontal ticks: [n] ticks in direction [d] move [scrollLeft] by [n]
    signed magnitudes and leave [scrollTop] and the viewport alone. *)
Lemma horizontal_ticks_gen (n : nat) (l : loc) (d : Z) (w : World) :
  viewportWidth w < 1024 ->
  exists w', ticks n (Some l) d w = (Normal tt, w') /\
    viewportWidth w' = viewportWidth w /\
    scrollLeft (heap w' !!! l) =
      scrollLeft (heap w !!! l)
      + Z.of_nat n * (if 0 <? d then scrollAmount d else - scrollAmount d) /\
    scrollTop (heap w' !!! l) = scrollTop (heap w !!! l).
Proof.
  revert w. induction n as [|n IH]; intros w Hx.
  - exists w. split; [reflexivity|]. split; [reflexivity|].
    split; [|reflexivity]. change (Z.of_nat 0) with 0. rewrite Z.mul_0_l.
    symmetry. apply Z.add_0_r.
  - assert (Hlt : (1024 <=? viewportWidth w) = false) by (apply Z.leb_gt; exact Hx).
    cbn [ticks]. unfold bind at 1. rewrite scrollByAxis_some. cbv zeta.
    rewrite Hlt.
    match goal with |- context [ticks n (Some l) d ?w1] =>
      destruct (IH w1 Hx) as (w' & E & Hv & Hl & Ht) end.
    exists w'. split; [exact E|]. split; [exact Hv|].
    rewrite Hl, Ht. cbn [heap set_heap].
    rewrite lookup_total_insert_eq. cbn [scrollLeft scrollTop].
    split; [lia|reflexivity].
Qed.

(** C4: with the horizontal axis active, [n] ticks in direction +1 raise
    [scrollLeft] by exactly [n] times the magnitude (20 pixels) and leave
    [scrollTop] unchanged; in direction -1 they lower it by as much. *)
Theorem ticks_horizontal (w : World) (l : loc) (n : nat)
    (Hx : fst (getAxis w) = Normal axis_x) :
  scrollAmount 1 = 20 /\ scrollAmount (-1) = 20 /\
  (exists w', ticks n (Some l) 1 w = (Normal tt, w') /\
     scrollLeft (heap w' !!! l) = scrollLeft (heap w !!! l) + Z.of_nat n * scrollAmount 1 /\
     scrollTop (heap w' !!! l) = scrollTop (heap w !!! l)) /\
  (exists w', ticks n (Some l) (-1) w = (Normal tt, w') /\
     scrollLeft (heap w' !!! l) = scrollLeft (heap w !!! l) - Z.of_nat n * scrollAmount (-1) /\
     scrollTop (heap w' !!! l) = scrollTop (heap w !!! l)).
Proof.
  assert (Hlt : viewportWidth w < 1024).
  { rewrite getAxis_eq in Hx. simpl in Hx.
    destruct (Z.leb_spec 1024 (viewportWidth w)); [discriminate|assumption]. }
  split; [reflexivity|]. split; [reflexivity|]. split.
  - destruct (horizontal_ticks_gen n l 1 w Hlt) as (w' & E & _ & Hl & Ht).
    exists w'. split; [exact E|]. split; [|exact Ht].
    rewrite Hl. change (0 <? 1) with true. cbv iota. reflexivity.
  - destruct (horizontal_ticks_gen n l (-1) w Hlt) as (w' & E & _ & Hl & Ht).
    exists w'. split; [exact E|]. split; [|exact Ht].
    rewrite Hl. change (0 <? -1) with false. cbv iota.
    change (scrollAmount (-1)) with 20. lia.
Qed.

(** Three ticks at a viewport 500 pixels wide, from offsets (100, 7). *)
Lemma ticks_horizontal_witness :
  let w := initial samplePage {[ 2%positive := {| scrollLeft := 100; scrollTop := 7 |} ]} 500 in
  fst (getAxis w) = Normal axis_x /\
  (exists w', ticks 3 (Some 2%positive) 1 w = (Normal tt, w') /\
     scrollLeft (heap w' !!! 2%positive) = 160 /\
     scrollTop (heap w' !!! 2%positive) = 7) /\
  (exists w', ticks 3 (Some 2%positive) (-1) w = (Normal tt, w') /\
     scrollLeft (heap w' !!! 2%positive) = 40 /\
     scrollTop (heap w' !!! 2%positive) = 7).
Proof.
  intros w.
  assert (Hx : fst (getAxis w) = Normal axis_x) by reflexivity.
  split; [exact Hx|].
  destruct (ticks_horizontal w 2%positive 3 Hx) as (_ & _ & Hup & Hdown).
  split; [exact Hup|exact Hdown].
Defined.

(** The vertical scenario: three ticks at 1280 pixels move [scrollTop]. *)
Example ticks_vertical_scenario :
  let w := initial samplePage ∅ 1280 in
  let w' := task (ticks 3 (Some 2%positive) 1) w in
  scrollTop (heap w' !!! 2%positive) = 60 /\
  scrollLeft (heap w' !!! 2%positive) = 0.
Proof. split; reflexivity. Qed.

(** C5: cancellation is immediate and total. In any world the page can
    reach, the step that dispatches a stop trigger (the window's [resize],
    for one) ends with the controller idle: the slot is empty and no timer
    is active; the scroll offsets are as they were before the step, and they
    stay so however many timer periods elapse afterwards. *)
Theorem stop_trigger_cancels (doc : selector -> option loc)
    (hp : gmap loc Element) (vw : Z) (tr : list event) (ev : event)
    (t : target) (e : evname) (hs : list handle)
    (Hev : trigger_of ev = Some (t, e))
    (Hstop : stopTrigger (run tr (boot doc hp vw)) t e = true) :
  let w := run tr (boot doc hp vw) in
  let w' := step w ev in
  idle w' /\ heap w' = heap w /\
  run (Fire <$> hs) w' = w' /\ heap (run (Fire <$> hs) w') = heap w.
Proof.
  intros w w'. fold w in Hstop.
  destruct (boot_invariant doc hp vw) as [Hc0 Hw0].
  destruct (run_invariant tr _ Hc0 Hw0) as [Hc _]. fold w in Hc.
  unfold stopTrigger in Hstop. apply andb_true_iff in Hstop as [Hex Hall].
  assert (Hgoal : forall v : World,
            consistent v -> listeners v = listeners w -> heap v = heap w ->
            idle (dispatch t e v) /\ heap (dispatch t e v) = heap w).
  { intros v Hcv Hlv Hhv.
    destruct (dispatch_frame t e v Hcv) as (_ & Hh & _).
    split; [|congruence].
    unfold dispatch. rewrite Hlv.
    destruct (foldl_stop t e (listeners w) v Hcv Hall) as [Hidle _].
    exact (Hidle Hex). }
  assert (Hstep : idle w' /\ heap w' = heap w).
  { subst w'. destruct ev as [t0 e0|width|h]; simpl in Hev.
    - injection Hev as -> ->. exact (Hgoal w Hc eq_refl eq_refl).
    - injection Hev as <- <-.
      exact (Hgoal (set_viewportWidth width w) Hc eq_refl eq_refl).
    - discriminate. }
  destruct Hstep as [Hidle Hheap].
  split; [exact Hidle|]. split; [exact Hheap|].
  rewrite (run_fires_idle hs w' (proj2 Hidle)).
  split; [reflexivity|exact Hheap].
Qed.

(** The right arrow is held at 500 pixels for three ticks (the list has
    scrolled by 60), then the window is resized: the session is gone and
    three more timer periods change nothing. *)
Lemma stop_trigger_cancels_witness :
  let held := [Dispatch (Node 4%positive) pointerdown;
               Fire 1%positive; Fire 1%positive; Fire 1%positive] in
  let w := run held (boot samplePage ∅ 500) in
  let w' := step w (Resize 1280) in
  let later := [1%positive; 1%positive; 1%positive] in
  trigger_of (Resize 1280) = Some (Window, resize) /\
  stopTrigger w Window resize = true /\
  scrollController w = Some 1%positive /\
  scrollLeft (heap w !!! 2%positive) = 60 /\
  idle w' /\ heap w' = heap w /\
  run (Fire <$> later) w' = w' /\ heap (run (Fire <$> later) w') = heap w.
Proof.
  intros held w w' later.
  split; [reflexivity|]. split; [reflexivity|].
  split; [reflexivity|]. split; [reflexivity|].
  exact (stop_trigger_cancels samplePage ∅ 500 held (Resize 1280) Window resize
           later eq_refl eq_refl).
Defined.

(** Whatever the page and whatever happened before, a window resize leaves
    the controller idle, for good. *)
Lemma resize_cancels (doc : selector -> option loc) (hp : gmap loc Element)
    (vw : Z) (tr : list event) (width : Z) (hs : list handle) :
  let w := run tr (boot doc hp vw) in
  let w' := step w (Resize width) in
  idle w' /\ heap w' = heap w /\ run (Fire <$> hs) w' = w'.
Proof.
  intros w w'.
  destruct (boot_invariant doc hp vw) as [Hc0 Hw0].
  destruct (run_invariant tr _ Hc0 Hw0) as [Hc Hw]. fold w in Hc, Hw.
  assert (Hcv : consistent (set_viewportWidth width w)) by exact Hc.
  destruct (dispatch_frame Window resize _ Hcv) as (_ & Hh & _).
  assert (Hidle : idle w').
  { subst w'. simpl. destruct Hw as [[Hnil Hsc]|Hlast].
    - rewrite (dispatch_unwired Window resize (set_viewportWidth width w) Hnil).
      unfold consistent in Hc. rewrite Hsc in Hc. split; [exact Hsc|exact Hc].
    - exact (dispatch_resize_clears (set_viewportWidth width w) Hcv Hlast). }
  split; [exact Hidle|]. split; [exact Hh|].
  exact (run_fires_idle hs w' (proj2 Hidle)).
Qed.

(** Releasing an arrow, leaving it, and the window losing focus are stop
    triggers on the sample page, as the window's [resize] is; pressing an
    arrow is not. *)
Example sample_stop_triggers :
  let w := boot samplePage ∅ 500 in
  stopTrigger w Window resize = true /\
  stopTrigger w Window blur = true /\
  stopTrigger w (Node 3%positive) pointerup = true /\
  stopTrigger w (Node 3%positive) mouseup = true /\
  stopTrigger w (Node 4%positive) mouseleave = true /\
  stopTrigger w (Node 4%positive) pointercancel = true /\
  stopTrigger w (Node 4%positive) blur = true /\
  stopTrigger w (Node 4%positive) pointerdown = false.
Proof. repeat split; reflexivity. Qed.

(** C6: [stopContinuousScroll] is idempotent. With no active session it
    returns normally and leaves the world as it is; with a session it
    removes that session's timer and empties the slot, touching nothing
    else; and a second call right after the first changes nothing. *)
Theorem stopContinuousScroll_idempotent (w : World) :
  fst (stopContinuousScroll w) = Normal tt /\
  match scrollController w with
  | None => task stopContinuousScroll w = w
  | Some h =>
      task stopContinuousScroll w =
        {| scrollController := None; intervals := delete h (intervals w);
           nextHandle := nextHandle w; heap := heap w;
           viewportWidth := viewportWidth w; document := document w;
           listeners := listeners w |} /\
      intervals (task stopContinuousScroll w) !! h = None
  end /\
  stopContinuousScroll (task stopContinuousScroll w) =
    (Normal tt, task stopContinuousScroll w).
Proof.
  unfold task. rewrite !stopContinuousScroll_eq. simpl.
  split; [reflexivity|].
  destruct (scrollController w) as [h|] eqn:E; simpl.
  - split; [|reflexivity].
    split; [reflexivity|]. apply lookup_delete_eq.
  - rewrite E. split; reflexivity.
Qed.

(** C7: a tick on an absent container returns normally and leaves the whole
    world, both scroll offsets of every element and the session slot
    included, exactly as it was. *)
Theorem scrollByAxis_null_noop (delta : Z) (w : World) :
  scrollByAxis None delta w = (Normal tt, w) /\
  heap (task (scrollByAxis None delta) w) = heap w /\
  scrollController (task (scrollByAxis None delta) w) = scrollController w /\
  intervals (task (scrollByAxis None delta) w) = intervals w.
Proof. repeat split. Qed.

(** Without its guard the same write would throw. *)
Example addScrollLeft_null_throws (w : World) :
  fst (addScrollLeft None 20 w) = Abrupt TypeError.
Proof. reflexivity. Qed.

End ScrollSpec.

(* ================================================================== *)
(** ** The regular-expression test decides the language *)
(* ================================================================== *)

Module ReSpec.
Import Re.

Lemma Matches_Empty (s : jsstring) : ~ Matches Empty s.
Proof. intros H. inversion H. Qed.

Lemma Matches_Eps (s : jsstring) : Matches Eps s -> s = [].
Proof. intros H. inversion H. reflexivity. Qed.

Lemma Matches_Class (p : N -> bool) (s : jsstring) :
  Matches (Class p) s -> exists c, s = [c] /\ p c = true.
Proof. intros H. inversion H; subst. eauto. Qed.

Lemma Matches_Cat (r1 r2 : regex) (s : jsstring) :
  Matches (Cat r1 r2) s ->
  exists s1 s2, s = s1 ++ s2 /\ Matches r1 s1 /\ Matches r2 s2.
Proof. intros H. inversion H; subst. eauto. Qed.

Lemma Matches_Alt (r1 r2 : regex) (s : jsstring) :
  Matches (Alt r1 r2) s -> Matches r1 s \/ Matches r2 s.
Proof. intros H. inversion H; subst; auto. Qed.

Lemma nullable_Matches (r : regex) : nullable r = true <-> Matches r [].
Proof.
  induction r as [| |p|r1 IH1 r2 IH2|r1 IH1 r2 IH2|r IH]; simpl.
  - split; [discriminate|]. intros H. destruct (Matches_Empty _ H).
  - split; [intros _; constructor|reflexivity].
  - split; [discriminate|]. intros H.
    destruct (Matches_Class _ _ H) as (c & E & _). discriminate.
  - rewrite andb_true_iff, IH1, IH2. split.
    + intros [H1 H2]. exact (MCat r1 r2 [] [] H1 H2).
    + intros H. destruct (Matches_Cat _ _ _ H) as (s1 & s2 & E & H1 & H2).
      symmetry in E. apply app_eq_nil in E as [-> ->]. auto.
  - rewrite orb_true_iff, IH1, IH2. split.
    + intros [H|H]; [apply MAltL|apply MAltR]; exact H.
    + apply Matches_Alt.
  - split; [intros _; constructor|reflexivity].
Qed.

Lemma Matches_Star_cons_gen (r' : regex) (cs : jsstring) :
  Matches r' cs ->
  forall r c s, r' = Star r -> cs = c :: s ->
  exists s1 s2, s = s1 ++ s2 /\ Matches r (c :: s1) /\ Matches (Star r) s2.
Proof.
  induction 1 as [| | | | | |r0 t1 t2 H1 _ H2 IH2];
    intros rr cc ss Er Es; try discriminate.
  injection Er as ->. destruct t1 as [|c1 t1]; simpl in Es.
  - exact (IH2 rr cc ss eq_refl Es).
  - injection Es as -> <-. exists t1, t2. auto.
Qed.

(** A non-empty match of [r*] starts with a non-empty match of [r]. *)
Lemma Matches_Star_cons (r : regex) (c : N) (s : jsstring) :
  Matches (Star r) (c :: s) ->
  exists s1 s2, s = s1 ++ s2 /\ Matches r (c :: s1) /\ Matches (Star r) s2.
Proof. intros H. exact (Matches_Star_cons_gen _ _ H r c s eq_refl eq_refl). Qed.

Lemma deriv_Matches (c : N) (r : regex) (s : jsstring) :
  Matches (deriv c r) s <-> Matches r (c :: s).
Proof.
  revert s.
  induction r as [| |p|r1 IH1 r2 IH2|r1 IH1 r2 IH2|r IH]; intros s; simpl.
  - split; intros H; destruct (Matches_Empty _ H).
  - split; intros H; [destruct (Matches_Empty _ H)|].
    apply Matches_Eps in H. discriminate.
  - destruct (p c) eqn:Ep; split; intros H.
    + apply Matches_Eps in H as ->. constructor. exact Ep.
    + destruct (Matches_Class _ _ H) as (c' & E & _). injection E as _ ->.
      constructor.
    + destruct (Matches_Empty _ H).
    + destruct (Matches_Class _ _ H) as (c' & E & Hp). injection E as <- _.
      congruence.
  - assert (Hleft : forall t, Matches (Cat (deriv c r1) r2) t ->
                              Matches (Cat r1 r2) (c :: t)).
    { intros t H. destruct (Matches_Cat _ _ _ H) as (s1 & s2 & -> & H1 & H2).
      apply IH1 in H1. exact (MCat r1 r2 (c :: s1) s2 H1 H2). }
    assert (Hinv : Matches (Cat r1 r2) (c :: s) ->
                   Matches (Cat (deriv c r1) r2) s \/
                   (Matches r1 [] /\ Matches (deriv c r2) s)).
    { intros H. destruct (Matches_Cat _ _ _ H) as (s1 & s2 & E & H1 & H2).
      destruct s1 as [|c1 s1]; simpl in E.
      - right. subst s2. split; [exact H1|apply IH2; exact H2].
      - injection E as <- ->. left. apply MCat; [apply IH1; exact H1|exact H2]. }
    destruct (nullable r1) eqn:En; split; intros H.
    + apply Matches_Alt in H as [H|H]; [exact (Hleft s H)|].
      apply IH2 in H. apply nullable_Matches in En.
      exact (MCat r1 r2 [] (c :: s) En H).
    + destruct (Hinv H) as [H'|[_ H']]; [apply MAltL|apply MAltR]; exact H'.
    + exact (Hleft s H).
    + destruct (Hinv H) as [H'|[H' _]]; [exact H'|].
      apply nullable_Matches in H'. congruence.
  - split; intros H.
    + apply Matches_Alt in H as [H|H];
        [apply MAltL, IH1|apply MAltR, IH2]; exact H.
    + apply Matches_Alt in H as [H|H];
        [apply MAltL, IH1|apply MAltR, IH2]; exact H.
  - split; intros H.
    + destruct (Matches_Cat _ _ _ H) as (s1 & s2 & -> & H1 & H2).
      apply IH in H1. exact (MStarS r (c :: s1) s2 H1 H2).
    + destruct (Matches_Star_cons r c s H) as (s1 & s2 & -> & H1 & H2).
      apply MCat; [apply IH; exact H1|exact H2].
Qed.

Lemma test_Matches (r : regex) (s : jsstring) :
  test r s = true <-> Matches r s.
Proof.
  revert r. induction s as [|c s IH]; intros r; simpl.
  - apply nullable_Matches.
  - rewrite IH. apply deriv_Matches.
Qed.

(** [[class]*] and [[class]+] *)
Lemma Matches_Star_Class (p : N -> bool) (s : jsstring) :
  Matches (Star (Class p)) s <-> List.Forall (fun c => p c = true) s.
Proof.
  split.
  - revert p. induction s as [|c s IH]; intros p H; [constructor|].
    destruct (Matches_Star_cons _ c s H) as (s1 & s2 & -> & H1 & H2).
    destruct (Matches_Class _ _ H1) as (c' & E & Hp).
    injection E as <- ->. constructor; [exact Hp|]. exact (IH p H2).
  - induction 1 as [|c s Hc _ IH]; [constructor|].
    exact (MStarS (Class p) [c] s (MClass p c Hc) IH).
Qed.

Lemma Matches_Plus_Class (p : N -> bool) (s : jsstring) :
  Matches (Plus (Class p)) s <->
  s <> [] /\ List.Forall (fun c => p c = true) s.
Proof.
  unfold Plus. split.
  - intros H. destruct (Matches_Cat _ _ _ H) as (s1 & s2 & -> & H1 & H2).
    destruct (Matches_Class _ _ H1) as (c & -> & Hp).
    split; [discriminate|]. constructor; [exact Hp|].
    apply Matches_Star_Class. exact H2.
  - intros [Hne Hall]. destruct s as [|c s]; [congruence|].
    inversion Hall; subst.
    apply (MCat (Class p) (Star (Class p)) [c] s);
      [constructor; assumption|apply Matches_Star_Class; assumption].
Qed.

End ReSpec.

(* ================================================================== *)
(** ** Properties of the two validators *)
(* ================================================================== *)

Module ValidatorsSpec.
Import Validation Email.

Lemma legal_not_whiteSpace (c : N) :
  REGEX.legalChar c = true -> isWhiteSpace c = false.
Proof.
  intros Hl. destruct (isWhiteSpace c) eqn:Hw; [|reflexivity].
  rewrite (ValidationSpec.whiteSpace_illegal c Hw) in Hl. discriminate.
Qed.

Lemma illegalChars_test_false (s : jsstring) :
  REGEX.illegalChars_test s = false <->
  List.Forall (fun c => REGEX.legalChar c = true) s.
Proof.
  unfold REGEX.illegalChars_test. induction s as [|c s IH]; simpl.
  - split; [constructor|reflexivity].
  - rewrite orb_false_iff, negb_false_iff, IH. split.
    + intros [Hc Hs]. constructor; assumption.
    + intros H. inversion H; subst. auto.
Qed.

Lemma trimStart_blank (s : jsstring) :
  forallb isWhiteSpace s = true -> trimStart s = [].
Proof.
  induction s as [|c s IH]; simpl; [reflexivity|].
  intros H. apply andb_true_iff in H as [-> Hs]. exact (IH Hs).
Qed.

Lemma trimStart_not_blank (s : jsstring) :
  forallb isWhiteSpace s = false ->
  exists c t, trimStart s = c :: t /\ isWhiteSpace c = false.
Proof.
  induction s as [|c s IH]; simpl; [discriminate|].
  destruct (isWhiteSpace c) eqn:Hc; simpl; [exact IH|].
  intros _. exists c, s. auto.
Qed.

(** [!value.trim()] holds exactly of the strings made of white space only,
    the empty string among them. *)
Lemma isEmpty_trim (s : jsstring) :
  isEmpty (trim s) = forallb isWhiteSpace s.
Proof.
  unfold trim. destruct (forallb isWhiteSpace s) eqn:Hb.
  - rewrite (trimStart_blank s Hb). reflexivity.
  - destruct (trimStart_not_blank s Hb) as (c & t & -> & Hc).
    assert (Hr : forallb isWhiteSpace (rev (c :: t)) = false).
    { simpl. rewrite forallb_app. simpl. rewrite Hc.
      apply andb_false_r. }
    destruct (trimStart_not_blank _ Hr) as (c' & t' & -> & _).
    simpl. destruct (rev t' ++ [c']) eqn:E; [|reflexivity].
    destruct (rev t'); discriminate.
Qed.

Lemma legal_not_blank (s : jsstring) :
  s <> [] -> List.Forall (fun c => REGEX.legalChar c = true) s ->
  forallb isWhiteSpace s = false.
Proof.
  intros Hne Hall. destruct s as [|c s]; [congruence|].
  inversion Hall; subst. simpl. rewrite (legal_not_whiteSpace c); auto.
Qed.

(** X1: [validateMessage] accepts exactly the non-empty strings of at most
    300 code units, all of them in [a-zA-Z0-9@._-]. *)
Theorem validateMessage_accepts_iff (s : jsstring) :
  isValid (validateMessage s) = true <->
  s <> [] /\ List.Forall (fun c => REGEX.legalChar c = true) s /\
  (List.length s <= 300)%nat.
Proof.
  unfold validateMessage. rewrite isEmpty_trim. split.
  - destruct (forallb isWhiteSpace s) eqn:Hb; [discriminate|].
    destruct (REGEX.illegalChars_test s) eqn:Hi; [discriminate|].
    destruct (Z.ltb_spec MESSAGE_LIMIT (Z.of_nat (List.length s))) as [Hl|Hl];
      [discriminate|].
    intros _. split; [intros ->; discriminate|].
    split; [apply illegalChars_test_false; exact Hi|].
    unfold MESSAGE_LIMIT in Hl. lia.
  - intros (Hne & Hall & Hlen).
    rewrite (legal_not_blank s Hne Hall).
    apply illegalChars_test_false in Hall. rewrite Hall.
    destruct (Z.ltb_spec MESSAGE_LIMIT (Z.of_nat (List.length s))) as [Hl|Hl];
      [unfold MESSAGE_LIMIT in Hl; lia|reflexivity].
Qed.

(** X2: the message [validateMessage] reports, by priority: a string of
    white space only (or empty) is "required", even though white space is
    also illegal; otherwise an illegal code unit is reported, even when the
    string is also too long; otherwise a length above 300. *)
Theorem validateMessage_report (s : jsstring) :
  message (validateMessage s) =
  if forallb isWhiteSpace s then "Message is required."
  else if existsb (fun c => negb (REGEX.legalChar c)) s then
    "Message contains invalid characters. Only letters, numbers, @, ., _, and - are allowed."
  else if (300 <? List.length s)%nat then "Message must be 300 characters or less."
  else "".
Proof.
  unfold validateMessage. rewrite isEmpty_trim.
  destruct (forallb isWhiteSpace s); [reflexivity|].
  unfold REGEX.illegalChars_test.
  destruct (existsb (fun c => negb (REGEX.legalChar c)) s); [reflexivity|].
  destruct (Z.ltb_spec MESSAGE_LIMIT (Z.of_nat (List.length s))) as [Hl|Hl];
    destruct (Nat.ltb_spec 300 (List.length s)) as [Hn|Hn];
    try reflexivity; unfold MESSAGE_LIMIT in Hl; lia.
Qed.

(** The boundary: 300 letters pass, 301 do not. *)
Example validateMessage_boundary :
  isValid (validateMessage (repeat 97%N 300)) = true /\
  validateMessage (repeat 97%N 301) =
    {| isValid := false; message := "Message must be 300 characters or less." |}.
Proof. split; vm_compute; reflexivity. Qed.

Lemma notSpaceAt_true (c : N) :
  notSpaceAt c = true <-> isWhiteSpace c = false /\ c <> 64%N.
Proof.
  unfold notSpaceAt. rewrite negb_true_iff, orb_false_iff, N.eqb_neq.
  reflexivity.
Qed.

Lemma Forall_notSpaceAt (s : jsstring) :
  List.Forall (fun c => REGEX.legalChar c = true) s -> ~ In 64%N s ->
  List.Forall (fun c => notSpaceAt c = true) s.
Proof.
  intros Hall Hat. apply List.Forall_forall. intros c Hc.
  apply notSpaceAt_true. split.
  - apply legal_not_whiteSpace. rewrite List.Forall_forall in Hall. auto.
  - intros ->. exact (Hat Hc).
Qed.

Lemma notSpaceAt_no_at (s : jsstring) :
  List.Forall (fun c => notSpaceAt c = true) s -> ~ In 64%N s.
Proof.
  intros Hall Hin. rewrite List.Forall_forall in Hall.
  apply Hall, notSpaceAt_true in Hin. destruct Hin as [_ Hne]. congruence.
Qed.

(** The strings [REGEX.email] matches: [a@b.c] with [a], [b], [c] non-empty
    and free of white space and of ['@']. *)
Lemma email_test_iff (s : jsstring) :
  Re.test REGEX_email s = true <->
  exists a b c, s = a ++ 64%N :: b ++ 46%N :: c /\
    (a <> [] /\ List.Forall (fun x => notSpaceAt x = true) a) /\
    (b <> [] /\ List.Forall (fun x => notSpaceAt x = true) b) /\
    (c <> [] /\ List.Forall (fun x => notSpaceAt x = true) c).
Proof.
  rewrite ReSpec.test_Matches. unfold REGEX_email. split.
  - intros H.
    destruct (ReSpec.Matches_Cat _ _ _ H) as (a & s1 & -> & Ha & H1).
    destruct (ReSpec.Matches_Cat _ _ _ H1) as (at' & s2 & -> & Hat & H2).
    destruct (ReSpec.Matches_Cat _ _ _ H2) as (b & s3 & -> & Hb & H3).
    destruct (ReSpec.Matches_Cat _ _ _ H3) as (dot & c & -> & Hdot & Hc).
    destruct (ReSpec.Matches_Class _ _ Hat) as (x & -> & Hx).
    destruct (ReSpec.Matches_Class _ _ Hdot) as (y & -> & Hy).
    apply N.eqb_eq in Hx, Hy. subst x y.
    exists a, b, c. split; [reflexivity|].
    split; [apply ReSpec.Matches_Plus_Class; assumption|].
    split; apply ReSpec.Matches_Plus_Class; assumption.
  - intros (a & b & c & -> & Ha & Hb & Hc).
    apply ReSpec.Matches_Plus_Class in Ha, Hb, Hc.
    apply Re.MCat; [exact Ha|].
    apply (Re.MCat _ _ [64%N]); [constructor; reflexivity|].
    apply Re.MCat; [exact Hb|].
    apply (Re.MCat _ _ [46%N]); [constructor; reflexivity|exact Hc].
Qed.

(** X3: [validateEmail] accepts exactly the strings [a@b.c] whose code units
    are all in [a-zA-Z0-9@._-] and whose parts [a], [b], [c] are non-empty
    and contain no ['@']. *)
Theorem validateEmail_accepts_iff (s : jsstring) :
  isValid (validateEmail s) = true <->
  List.Forall (fun x => REGEX.legalChar x = true) s /\
  exists a b c, s = a ++ 64%N :: b ++ 46%N :: c /\
    a <> [] /\ b <> [] /\ c <> [] /\
    ~ In 64%N a /\ ~ In 64%N b /\ ~ In 64%N c.
Proof.
  unfold validateEmail. rewrite isEmpty_trim. split.
  - destruct (forallb isWhiteSpace s) eqn:Hb; [discriminate|].
    destruct (REGEX.illegalChars_test s) eqn:Hi; [discriminate|].
    destruct (Re.test REGEX_email s) eqn:Ht; [|discriminate].
    intros _. split; [apply illegalChars_test_false; exact Hi|].
    apply email_test_iff in Ht
      as (a & b & c & E & [Ha Ha'] & [Hb0 Hb'] & [Hc Hc']).
    exists a, b, c. split; [exact E|].
    repeat split; auto using notSpaceAt_no_at.
  - intros (Hall & a & b & c & E & Ha & Hb & Hc & Hna & Hnb & Hnc).
    assert (Hne : s <> []) by (subst s; destruct a; discriminate).
    rewrite (legal_not_blank s Hne Hall).
    assert (Hi := proj2 (illegalChars_test_false s) Hall). rewrite Hi.
    assert (Ht : Re.test REGEX_email s = true).
    { apply email_test_iff. exists a, b, c. split; [exact E|].
      subst s. apply Forall_app in Hall as [Hla Hall].
      inversion Hall as [|x l _ Hall']; subst.
      apply Forall_app in Hall' as [Hlb Hall''].
      inversion Hall'' as [|x' l' _ Hlc]; subst.
      repeat split; auto using Forall_notSpaceAt. }
    rewrite Ht. reflexivity.
Qed.

(** An accepted address passed the regular expression. *)
Lemma validateEmail_valid_test (s : jsstring) :
  isValid (validateEmail s) = true -> Re.test REGEX_email s = true.
Proof.
  unfold validateEmail.
  destruct (isEmpty (trim s)); [discriminate|].
  destruct (REGEX.illegalChars_test s); [discriminate|].
  destruct (Re.test REGEX_email s); [reflexivity|discriminate].
Qed.

Lemma count_occ_absent (s : jsstring) (x : N) :
  ~ In x s -> count_occ N.eq_dec s x = 0%nat.
Proof. apply count_occ_not_In. Qed.

(** X4: an address [validateEmail] accepts has exactly one ['@'], at least
    one ['.'] after it, and at least five code units. *)
Theorem validateEmail_one_at (s : jsstring)
    (Hvalid : isValid (validateEmail s) = true) :
  count_occ N.eq_dec s 64%N = 1%nat /\
  (exists a d, s = a ++ 64%N :: d /\ In 46%N d) /\
  (5 <= List.length s)%nat.
Proof.
  apply validateEmail_valid_test, email_test_iff in Hvalid
    as (a & b & c & -> & [Ha Ha'] & [Hb Hb'] & [Hc Hc']).
  pose proof (notSpaceAt_no_at a Ha') as Hna.
  pose proof (notSpaceAt_no_at b Hb') as Hnb.
  pose proof (notSpaceAt_no_at c Hc') as Hnc.
  split; [|split].
  - rewrite count_occ_app. simpl.
    destruct (N.eq_dec 64 64) as [_|Hn]; [|congruence].
    rewrite count_occ_app. simpl.
    destruct (N.eq_dec 46 64) as [Hn|_]; [discriminate|].
    rewrite !count_occ_absent by assumption. reflexivity.
  - exists a, (b ++ 46%N :: c). split; [reflexivity|].
    apply in_or_app. right. left. reflexivity.
  - rewrite length_app. simpl. rewrite length_app. simpl.
    destruct a; [congruence|]. destruct b; [congruence|].
    destruct c; [congruence|]. simpl. lia.
Qed.

Lemma validateEmail_one_at_witness :
  isValid (validateEmail (Js.lit "ann@mail.example.org")) = true /\
  count_occ N.eq_dec (Js.lit "ann@mail.example.org") 64%N = 1%nat /\
  (exists a d, Js.lit "ann@mail.example.org" = a ++ 64%N :: d /\ In 46%N d) /\
  (5 <= List.length (Js.lit "ann@mail.example.org"))%nat.
Proof.
  assert (Hv : isValid (validateEmail (Js.lit "ann@mail.example.org")) = true)
    by reflexivity.
  split; [exact Hv|].
  exact (validateEmail_one_at _ Hv).
Defined.

(** Two '@', no dot after the '@', or a dot right after it: rejected as a
    badly formed address. *)
Example validateEmail_rejects :
  message (validateEmail (Js.lit "a@@b.co")) = "Please enter a valid email address." /\
  message (validateEmail (Js.lit "a@b")) = "Please enter a valid email address." /\
  message (validateEmail (Js.lit "a@.co")) = "Please enter a valid email address." /\
  message (validateEmail (Js.lit "a@b.")) = "Please enter a valid email address.".
Proof. repeat split; reflexivity. Qed.

End ValidatorsSpec.

(* ================================================================== *)
(** ** Properties of data loading *)
(* ================================================================== *)

Module LoadingSpec.
Import Js Projects App.

Lemma or_truthy (a d : value) : toBoolean d = true -> toBoolean (or a d) = true.
Proof. intros Hd. unfold or. destruct (toBoolean a) eqn:Ea; assumption. Qed.

(** On everything but [null] the seven property reads succeed, as on a
    record. *)
Lemma normalizeProject_cases (v : value) :
  v = VNull \/
  exists m : gmap jsstring value, normalizeProject v = normalizeProject (VObj m).
Proof.
  destruct v; try (right; exists ∅; reflexivity); [left; reflexivity|].
  right. exists fields. reflexivity.
Qed.

Lemma normalizeProject_allTruthy (v : value) (p : Project) :
  normalizeProject v = Normal p -> allTruthy p = true.
Proof.
  destruct (normalizeProject_cases v) as [->|[m ->]]; [discriminate|].
  rewrite ProjectsSpec.normalizeProject_obj. intros [= <-].
  unfold allTruthy. cbn [id name short long url cardImage spotlightImage].
  rewrite !or_truthy by reflexivity. reflexivity.
Qed.

Lemma mapM_Forall2 {A B : Type} (f : A -> completion B) (xs : list A)
    (ys : list B) :
  mapM f xs = Normal ys -> Forall2 (fun a b => f a = Normal b) xs ys.
Proof.
  revert ys. induction xs as [|a xs IH]; intros ys; simpl.
  - intros [= <-]. constructor.
  - destruct (f a) as [b|e] eqn:Ea; simpl; [|discriminate].
    destruct (mapM f xs) as [bs|e]; simpl; [|discriminate].
    intros [= <-]. constructor; [exact Ea|apply IH; reflexivity].
Qed.

Lemma Forall2_In_r {A B : Type} (R : A -> B -> Prop) (xs : list A)
    (ys : list B) (b : B) :
  Forall2 R xs ys -> In b ys -> exists a, In a xs /\ R a b.
Proof.
  induction 1 as [|a b' xs ys Hab _ IH]; simpl; [tauto|].
  intros [<-|Hin]; [eauto|]. destruct (IH Hin) as (a' & Ha' & HR). eauto.
Qed.

Lemma mapM_normalize_null (xs : list value) :
  In VNull xs -> mapM normalizeProject xs = Abrupt TypeError.
Proof.
  induction xs as [|a xs IH]; simpl; [tauto|].
  intros [->|Hin]; [reflexivity|].
  destruct (normalizeProject a) as [b|[]]; simpl; [|reflexivity].
  rewrite (IH Hin). reflexivity.
Qed.

Lemma mapM_normalize_ok (xs : list value) :
  ~ In VNull xs -> exists ps, mapM normalizeProject xs = Normal ps.
Proof.
  induction xs as [|a xs IH]; simpl; intros Hn; [eauto|].
  destruct (normalizeProject_cases a) as [->|[m Hm]]; [tauto|].
  rewrite Hm, ProjectsSpec.normalizeProject_obj. simpl.
  destruct IH as [ps ->]; [tauto|]. simpl. eauto.
Qed.


(** X6: whatever the two requests returned, after [loadAllData] the project
    list is not empty and every field of every project in it is truthy. *)
Theorem loadAllData_projects_usable (about projects : outcome) (st : AppState) :
  projectsData (loadAllData about projects st) <> [] /\
  forallb allTruthy (projectsData (loadAllData about projects st)) = true.
Proof.
  unfold loadAllData.
  destruct (array_map normalizeProject
              match projects with Resolved v => v | Rejected => VArr [] end)
    as [ps|e] eqn:Emap; cbv zeta.
  - cbn [projectsData set_projectsData].
    destruct ps as [|p ps]; [split; [discriminate|reflexivity]|].
    cbn [List.length Nat.eqb projectsData set_projectsData].
    split; [discriminate|].
    apply forallb_forall. intros q Hq.
    destruct match projects with Resolved v => v | Rejected => VArr [] end
      as [| | | | |xs|]; try discriminate.
    apply mapM_Forall2 in Emap.
    destruct (Forall2_In_r _ _ _ q Emap Hq) as (x & _ & Hx).
    exact (normalizeProject_allTruthy x q Hx).
  - split; [discriminate|reflexivity].
Qed.

(** X7: when the projects request returns a non-empty array without [null]
    elements, the project list holds the normalization of each element, in
    order and as many, and the about-me data is what its own request gave
    (the 'Coming soon...' record if that request failed). *)
Theorem loadAllData_success (about : outcome) (xs : list value) (st : AppState)
    (Hne : xs <> [])
    (Hnull : ~ In VNull xs) :
  let st' := loadAllData about (Resolved (VArr xs)) st in
  Forall2 (fun x p => normalizeProject x = Normal p) xs (projectsData st') /\
  List.length (projectsData st') = List.length xs /\
  aboutMeData st' = match about with
                    | Resolved v => v
                    | Rejected => aboutMeComingSoon
                    end.
Proof.
  intros st'. subst st'. unfold loadAllData. cbn [array_map].
  destruct (mapM_normalize_ok xs Hnull) as [ps Eps]. rewrite Eps. cbv zeta.
  pose proof (mapM_Forall2 _ _ _ Eps) as HF.
  assert (Hlen : List.length ps = List.length xs).
  { clear -HF. induction HF; simpl; congruence. }
  cbn [projectsData set_projectsData].
  destruct ps as [|p ps].
  - destruct xs; [congruence|discriminate].
  - cbn [List.length Nat.eqb projectsData set_projectsData aboutMeData
         set_aboutMeData].
    split; [exact HF|]. split; [exact Hlen|reflexivity].
Qed.

Lemma loadAllData_success_witness :
  let xs := [VObj {[ lit "project_id" := VStr (lit "p1") ]}; VNum 7] in
  let st' := loadAllData Rejected (Resolved (VArr xs)) initialState in
  xs <> [] /\ ~ In VNull xs /\
  Forall2 (fun x p => normalizeProject x = Normal p) xs (projectsData st') /\
  List.length (projectsData st') = 2%nat /\
  aboutMeData st' = aboutMeComingSoon.
Proof.
  intros xs st'.
  assert (Hne : xs <> []) by discriminate.
  assert (Hnull : ~ In VNull xs).
  { intros [H|[H|[]]]; discriminate. }
  split; [exact Hne|]. split; [exact Hnull|].
  exact (loadAllData_success Rejected xs initialState Hne Hnull).
Defined.

(** X8: when the projects document is not an array, or is an array with a
    [null] element, the whole load falls back: the project list is the single
    'Loading Error' entry and the about-me data is replaced by the fallback
    record, even if the about-me request itself succeeded. *)
Theorem loadAllData_malformed (about : outcome) (v : value) (st : AppState)
    (Hbad : (forall xs, v <> VArr xs) \/ (exists xs, v = VArr xs /\ In VNull xs)) :
  projectsData (loadAllData about (Resolved v) st) = [errorFallbackProject] /\
  aboutMeData (loadAllData about (Resolved v) st) = aboutMeFallback.
Proof.
  unfold loadAllData.
  assert (E : array_map normalizeProject v = Abrupt TypeError).
  { destruct Hbad as [Hna|(xs & -> & Hin)].
    - destruct v; try reflexivity. destruct (Hna xs eq_refl).
    - exact (mapM_normalize_null xs Hin). }
  rewrite E. split; reflexivity.
Qed.

Lemma loadAllData_malformed_witness :
  let bio := VObj {[ lit "aboutMe" := VStr (lit "Hello") ]} in
  let v := VArr [VObj {[ lit "project_id" := VStr (lit "p1") ]}; VNull] in
  ((forall xs, v <> VArr xs) \/ (exists xs, v = VArr xs /\ In VNull xs)) /\
  projectsData (loadAllData (Resolved bio) (Resolved v) initialState)
    = [errorFallbackProject] /\
  aboutMeData (loadAllData (Resolved bio) (Resolved v) initialState)
    = aboutMeFallback.
Proof.
  intros bio v.
  assert (Hbad : (forall xs, v <> VArr xs) \/ (exists xs, v = VArr xs /\ In VNull xs)).
  { right. eexists. split; [reflexivity|]. right. left. reflexivity. }
  split; [exact Hbad|].
  exact (loadAllData_malformed (Resolved bio) v initialState Hbad).
Defined.

(** A failed projects request, like an empty array, gives the 'Coming Soon'
    placeholder. *)
Example loadAllData_placeholder (about : outcome) (st : AppState) :
  projectsData (loadAllData about Rejected st) = [placeholderProject] /\
  projectsData (loadAllData about (Resolved (VArr [])) st) = [placeholderProject].
Proof. split; reflexivity. Qed.

End LoadingSpec.

(* ================================================================== *)
(** ** Further properties of the scroll controller *)
(* ================================================================== *)

Module ScrollExtra.
Import Js Scroll ScrollInv.

(** The sign test and [Math.abs] cancel: one tick moves by [20 * delta]. *)
Lemma signed_amount (delta : Z) :
  (if 0 <? delta then scrollAmount delta else - scrollAmount delta) = 20 * delta.
Proof. unfold scrollAmount. destruct (Z.ltb_spec 0 delta); lia. Qed.

Lemma ticks_S (n : nat) (l : loc) (d : Z) (w : World) :
  ticks (S n) (Some l) d w = ticks n (Some l) d (task (scrollByAxis (Some l) d) w).
Proof.
  cbn [ticks]. unfold bind at 1, task. rewrite ScrollSpec.scrollByAxis_some.
  reflexivity.
Qed.

(** One tick: the offset along the current axis moves by [20 * delta]. *)
Lemma tick_once (l : loc) (delta : Z) (w : World) :
  let w1 := task (scrollByAxis (Some l) delta) w in
  viewportWidth w1 = viewportWidth w /\
  scrollTop (heap w1 !!! l) =
    scrollTop (heap w !!! l)
    + (if 1024 <=? viewportWidth w then 20 * delta else 0) /\
  scrollLeft (heap w1 !!! l) =
    scrollLeft (heap w !!! l)
    + (if 1024 <=? viewportWidth w then 0 else 20 * delta) /\
  (forall l', l' <> l -> heap w1 !!! l' = heap w !!! l').
Proof.
  unfold task. rewrite ScrollSpec.scrollByAxis_some. cbv zeta.
  cbn [snd heap set_heap viewportWidth]. rewrite signed_amount.
  rewrite lookup_total_insert_eq.
  split; [reflexivity|].
  destruct (1024 <=? viewportWidth w); cbn [scrollLeft scrollTop];
    (split; [lia|]); (split; [lia|]);
    intros l' Hne; apply lookup_total_insert_ne; congruence.
Qed.

(** The two offsets of the scrolled element after [n] ticks. *)
Lemma ticks_offsets (n : nat) (l : loc) (delta : Z) (w : World) :
  exists w', ticks n (Some l) delta w = (Normal tt, w') /\
    scrollTop (heap w' !!! l) =
      scrollTop (heap w !!! l)
      + (if 1024 <=? viewportWidth w then 20 * Z.of_nat n * delta else 0) /\
    scrollLeft (heap w' !!! l) =
      scrollLeft (heap w !!! l)
      + (if 1024 <=? viewportWidth w then 0 else 20 * Z.of_nat n * delta).
Proof.
  revert w. induction n as [|n IH]; intros w.
  - exists w. split; [reflexivity|].
    destruct (1024 <=? viewportWidth w); split; lia.
  - rewrite ticks_S.
    destruct (tick_once l delta w) as (Hv1 & Ht1 & Hl1 & _).
    destruct (IH (task (scrollByAxis (Some l) delta) w)) as (w' & E & Ht & Hl).
    exists w'. split; [exact E|].
    rewrite Ht, Hl, Ht1, Hl1, Hv1.
    destruct (1024 <=? viewportWidth w); split; lia.
Qed.


(** The timer's expiries are the ticks of its callback. *)
Lemma run_fires_ticks (n : nat) (h : handle) (l : loc) (d : Z) (w : World) :
  intervals w !! h = Some {| cb_container := Some l; cb_direction := d |} ->
  run (Fire <$> replicate n h) w = task (ticks n (Some l) d) w.
Proof.
  revert w. induction n as [|n IH]; intros w Hh; [reflexivity|].
  cbn [replicate fmap list_fmap run foldl step]. rewrite Hh.
  cbn [cb_container cb_direction]. unfold task at 2. rewrite ticks_S.
  fold (run (Fire <$> replicate n h)). apply IH.
  unfold task. rewrite ScrollSpec.scrollByAxis_some. exact Hh.
Qed.

(** *** What the wiring can reach *)

Lemma runHandler_wiring (c : option loc) (h : handler) (w : World) :
  match h with
  | HStart container direction => aimsAt c container direction
  | HStop => True
  end ->
  (forall k cb, intervals w !! k = Some cb ->
     aimsAt c (cb_container cb) (cb_direction cb)) ->
  forall k cb, intervals (task (runHandler h) w) !! k = Some cb ->
    aimsAt c (cb_container cb) (cb_direction cb).
Proof.
  intros Hh Hw k cb. destruct h as [container direction|]; simpl; unfold task.
  - rewrite ScrollSpec.startContinuousScroll_eq. simpl.
    rewrite lookup_insert.
    destruct (decide (nextHandle w = k)) as [_|_]; [intros [= <-]; exact Hh|].
    destruct (scrollController w) as [h0|]; [|apply Hw].
    rewrite lookup_delete. destruct (decide (h0 = k)); [discriminate|apply Hw].
  - rewrite ScrollSpec.stopContinuousScroll_eq. simpl.
    destruct (scrollController w) as [h0|]; [|apply Hw].
    simpl. rewrite lookup_delete.
    destruct (decide (h0 = k)); [discriminate|apply Hw].
Qed.

Lemma foldl_wiring (c : option loc) (t : target) (e : evname)
    (ls : list Listener) (w : World) :
  (forall l, In l ls ->
     match l_handler l with
     | HStart container direction => aimsAt c container direction
     | HStop => True
     end) ->
  (forall k cb, intervals w !! k = Some cb ->
     aimsAt c (cb_container cb) (cb_direction cb)) ->
  let w' := foldl (fun w' l =>
                     if decide (l_target l = t /\ l_type l = e)
                     then task (runHandler (l_handler l)) w'
                     else w') w ls in
  (forall k cb, intervals w' !! k = Some cb ->
     aimsAt c (cb_container cb) (cb_direction cb)) /\
  heap w' = heap w /\ listeners w' = listeners w /\
  viewportWidth w' = viewportWidth w.
Proof.
  revert w. induction ls as [|l ls IH]; intros w Hls Hw; simpl; [auto|].
  assert (Hls' : forall l', In l' ls ->
            match l_handler l' with
            | HStart container direction => aimsAt c container direction
            | HStop => True
            end) by (intros l' Hl'; apply Hls; right; exact Hl').
  destruct (decide (l_target l = t /\ l_type l = e)) as [_|_];
    [|exact (IH w Hls' Hw)].
  destruct (ScrollSpec.runHandler_frame (l_handler l) w) as (Hh & Hl & Hv).
  destruct (IH _ Hls' (runHandler_wiring c (l_handler l) w
                         (Hls l (or_introl eq_refl)) Hw))
    as (Hw' & Hh' & Hl' & Hv').
  split; [exact Hw'|]. repeat split; congruence.
Qed.

Lemma dispatch_wiredTo (c : option loc) (t : target) (e : evname) (w : World) :
  wiredTo c w ->
  wiredTo c (dispatch t e w) /\ heap (dispatch t e w) = heap w /\
  viewportWidth (dispatch t e w) = viewportWidth w.
Proof.
  intros [Hls Hw].
  destruct (foldl_wiring c t e (listeners w) w Hls Hw) as (Hw' & Hh & Hl & Hv).
  fold (dispatch t e w) in Hw', Hh, Hl, Hv.
  split; [split; [rewrite Hl; exact Hls|exact Hw']|]. auto.
Qed.

(** A step of the event loop keeps the wiring; it changes the offsets of no
    element but the one the wiring aims at. *)
Lemma step_wiredTo (c : option loc) (ev : event) (w : World) (l : loc) :
  wiredTo c w -> c <> Some l ->
  wiredTo c (step w ev) /\ heap (step w ev) !!! l = heap w !!! l.
Proof.
  intros Hw Hl. destruct ev as [t e|width|h]; simpl.
  - destruct (dispatch_wiredTo c t e w Hw) as (Hw' & Hh & _).
    split; [exact Hw'|rewrite Hh; reflexivity].
  - assert (Hwv : wiredTo c (set_viewportWidth width w)) by exact Hw.
    destruct (dispatch_wiredTo c Window resize _ Hwv) as (Hw' & Hh & _).
    split; [exact Hw'|rewrite Hh; reflexivity].
  - destruct (intervals w !! h) as [cb|] eqn:Eh; [|auto].
    destruct (proj2 Hw h cb Eh) as [Hc _].
    destruct (cb_container cb) as [pl|]; unfold task.
    + rewrite ScrollSpec.scrollByAxis_some. cbv zeta.
      split; [exact Hw|]. cbn [snd heap set_heap].
      apply lookup_total_insert_ne. congruence.
    + rewrite ScrollSpec.scrollByAxis_none. auto.
Qed.

Lemma boot_wiredTo doc hp vw :
  wiredTo (doc projectsList) (boot doc hp vw) /\ heap (boot doc hp vw) = hp.
Proof.
  unfold boot, task, setupArrowScrolling, bind, querySelector, gets, wiredTo.
  simpl.
  destruct (doc projectNavArrows) as [ac|], (doc projectsList) as [pl|]; simpl;
    try (split; [split; [intros l []|intros k cb; rewrite lookup_empty;
                                     discriminate]|reflexivity]).
  destruct (doc arrowLeft) as [la|], (doc arrowRight) as [ra|]; simpl;
    (split; [split|reflexivity]);
    try (intros k cb; rewrite lookup_empty; discriminate);
    intros l Hl; repeat (destruct Hl as [<-|Hl]; [simpl; unfold aimsAt; auto|]);
    destruct Hl.
Qed.

(** X10: the controller scrolls the project list and nothing else: whatever
    the page and whatever events and timer expiries follow, the offsets of
    every element other than the one [#projectList] names are those of the
    initial page. *)
Theorem only_projectsList_scrolls (doc : selector -> option loc)
    (hp : gmap loc Element) (vw : Z) (tr : list event) (l : loc)
    (Hother : doc projectsList <> Some l) :
  heap (run tr (boot doc hp vw)) !!! l = hp !!! l.
Proof.
  destruct (boot_wiredTo doc hp vw) as [Hw Hh].
  rewrite <- Hh at 2. clear Hh.
  generalize dependent (boot doc hp vw). intros w Hw.
  revert w Hw. induction tr as [|ev tr IH]; intros w Hw; [reflexivity|].
  simpl. destruct (step_wiredTo _ ev w l Hw Hother) as [Hw' Hl].
  rewrite <- Hl. exact (IH _ Hw').
Qed.

Lemma only_projectsList_scrolls_witness :
  let tr := [Dispatch (Node 4%positive) pointerdown; Fire 1%positive;
             Dispatch (Node 3%positive) mousedown; Fire 2%positive;
             Fire 2%positive; Resize 1280] in
  let hp : gmap loc Element :=
    {[ 9%positive := {| scrollLeft := 5; scrollTop := 6 |} ]} in
  samplePage projectsList <> Some 9%positive /\
  heap (run tr (boot samplePage hp 500)) !!! 2%positive
    = {| scrollLeft := -20; scrollTop := 0 |} /\
  heap (run tr (boot samplePage hp 500)) !!! 9%positive = hp !!! 9%positive.
Proof.
  intros tr hp.
  assert (Hother : samplePage projectsList <> Some 9%positive) by discriminate.
  split; [exact Hother|]. split; [reflexivity|].
  exact (only_projectsList_scrolls samplePage hp 500 tr 9%positive Hother).
Defined.

(** *** A page without the arrows or without the list *)

Lemma boot_unwired doc hp vw :
  doc projectNavArrows = None \/ doc projectsList = None ->
  boot doc hp vw = initial doc hp vw.
Proof.
  unfold boot, task, setupArrowScrolling, bind, querySelector, gets. simpl.
  intros [E|E]; rewrite E; [reflexivity|].
  destruct (doc projectNavArrows); reflexivity.
Qed.

(** X11: when the page lacks the arrow container or the project list,
    [setupArrowScrolling] registers nothing, and from then on no event and no
    timer expiry starts a session or moves an offset. *)
Theorem setup_without_targets (doc : selector -> option loc)
    (hp : gmap loc Element) (vw : Z) (tr : list event)
    (Hmissing : doc projectNavArrows = None \/ doc projectsList = None) :
  listeners (run tr (boot doc hp vw)) = [] /\
  idle (run tr (boot doc hp vw)) /\
  heap (run tr (boot doc hp vw)) = hp.
Proof.
  rewrite (boot_unwired doc hp vw Hmissing).
  assert (H0 : listeners (initial doc hp vw) = [] /\ idle (initial doc hp vw)
               /\ heap (initial doc hp vw) = hp)
    by (repeat split).
  generalize dependent (initial doc hp vw). intros w H0.
  revert w H0. induction tr as [|ev tr IH]; intros w H0; [exact H0|].
  simpl. apply IH. destruct H0 as (Hl & [Hs Hi] & Hh).
  destruct ev as [t e|width|h]; simpl.
  - rewrite (ScrollSpec.dispatch_unwired t e w Hl). repeat split; assumption.
  - rewrite (ScrollSpec.dispatch_unwired Window resize
               (set_viewportWidth width w) Hl).
    repeat split; assumption.
  - rewrite Hi, lookup_empty. repeat split; assumption.
Qed.

Lemma setup_without_targets_witness :
  let doc := fun sel => match sel with
                        | projectsList => None
                        | _ => samplePage sel
                        end in
  let tr := [Dispatch (Node 4%positive) pointerdown; Fire 1%positive;
             Resize 1280; Dispatch Window blur] in
  (doc projectNavArrows = None \/ doc projectsList = None) /\
  listeners (run tr (boot doc ∅ 500)) = [] /\
  idle (run tr (boot doc ∅ 500)) /\
  heap (run tr (boot doc ∅ 500)) = ∅.
Proof.
  intros doc tr.
  assert (Hm : doc projectNavArrows = None \/ doc projectsList = None)
    by (right; reflexivity).
  split; [exact Hm|].
  exact (setup_without_targets doc ∅ 500 tr Hm).
Defined.

(** *** Holding the right arrow *)

Lemma step_consistent (ev : event) (w : World) :
  consistent w ->
  consistent (step w ev) /\ listeners (step w ev) = listeners w.
Proof.
  intros Hc. destruct ev as [t e|width|h]; simpl.
  - destruct (ScrollSpec.dispatch_frame t e w Hc) as (Hc' & _ & Hl & _). auto.
  - assert (Hcv : consistent (set_viewportWidth width w)) by exact Hc.
    destruct (ScrollSpec.dispatch_frame Window resize _ Hcv)
      as (Hc' & _ & Hl & _). auto.
  - destruct (intervals w !! h) as [cb|]; [|auto].
    destruct (ScrollSpec.scrollByAxis_eq (cb_container cb) (cb_direction cb) w)
      as [hp E].
    unfold task. rewrite E. auto.
Qed.

Lemma run_consistent (tr : list event) (w : World) :
  consistent w ->
  consistent (run tr w) /\ listeners (run tr w) = listeners w.
Proof.
  revert w. induction tr as [|ev tr IH]; intros w Hc; [auto|].
  simpl. destruct (step_consistent ev w Hc) as [Hc' Hl].
  destruct (IH _ Hc') as [Hc'' Hl']. split; [exact Hc''|congruence].
Qed.

Lemma foldl_nomatch (t : target) (e : evname) (ls : list Listener) (w : World) :
  List.Forall (fun l => listens l t e = false) ls ->
  foldl (fun w' l =>
           if decide (l_target l = t /\ l_type l = e)
           then task (runHandler (l_handler l)) w'
           else w') w ls = w.
Proof.
  induction 1 as [|l ls Hl _ IH]; simpl; [reflexivity|].
  unfold listens in Hl. apply bool_decide_eq_false in Hl.
  destruct (decide (l_target l = t /\ l_type l = e)); [tauto|exact IH].
Qed.

(** When the last listener that matches is a start handler, the dispatch
    ends with that handler's session as the only one. *)
Lemma dispatch_last_start (t : target) (e : evname) (pre post : list Listener)
    (c : option loc) (d : Z) (w : World) :
  consistent w ->
  listeners w = pre ++ {| l_target := t; l_type := e; l_handler := HStart c d |} :: post ->
  List.Forall (fun l => listens l t e = false) post ->
  consistent (dispatch t e w) /\
  viewportWidth (dispatch t e w) = viewportWidth w /\
  heap (dispatch t e w) = heap w /\
  exists h, scrollController (dispatch t e w) = Some h /\
    intervals (dispatch t e w) = {[ h := {| cb_container := c; cb_direction := d |} ]}.
Proof.
  intros Hc Hls Hpost.
  destruct (ScrollSpec.dispatch_frame t e w Hc) as (Hc' & Hh & _ & Hv).
  split; [exact Hc'|]. split; [exact Hv|]. split; [exact Hh|].
  unfold dispatch. rewrite Hls, foldl_app. cbn [foldl l_target l_type l_handler].
  destruct (decide (t = t /\ e = e)) as [_|Hn]; [|tauto].
  rewrite (foldl_nomatch t e post _ Hpost).
  destruct (ScrollSpec.foldl_handlers t e pre w Hc) as (Hc1 & _).
  cbv zeta in Hc1. cbn [runHandler].
  eexists. split; [apply ScrollSpec.start_slot|].
  exact (ScrollSpec.consistent_start c d _ Hc1).
Qed.

Lemma boot_listeners_right doc hp vw (ac pl ra : loc) :
  doc projectNavArrows = Some ac -> doc projectsList = Some pl ->
  doc arrowRight = Some ra ->
  exists pre,
    listeners (boot doc hp vw) =
    pre ++
    [ {| l_target := Node ra; l_type := pointerdown; l_handler := HStart (Some pl) 1 |};
      {| l_target := Node ra; l_type := mousedown; l_handler := HStart (Some pl) 1 |};
      {| l_target := Node ra; l_type := pointerup; l_handler := HStop |};
      {| l_target := Node ra; l_type := mouseup; l_handler := HStop |};
      {| l_target := Node ra; l_type := mouseleave; l_handler := HStop |};
      {| l_target := Node ra; l_type := pointercancel; l_handler := HStop |};
      {| l_target := Node ra; l_type := blur; l_handler := HStop |};
      {| l_target := Window; l_type := blur; l_handler := HStop |};
      {| l_target := Window; l_type := resize; l_handler := HStop |} ].
Proof.
  intros Hac Hpl Hra.
  unfold boot, task, setupArrowScrolling, bind, querySelector, gets. simpl.
  rewrite Hac, Hpl. simpl. rewrite Hra.
  destruct (doc arrowLeft) as [la|]; simpl.
  - eexists [_; _; _; _; _; _; _]. reflexivity.
  - exists []. reflexivity.
Qed.

Ltac no_match :=
  repeat constructor;
  apply bool_decide_eq_false_2; simpl; intros [? ?]; congruence.

(** X12: holding the right arrow. In any world the page can reach, a press
    on the right arrow ([pointerdown], then [mousedown]) leaves exactly one
    session, aimed at the project list in direction +1, although two start
    handlers ran; [n] expiries of its timer then move the list by exactly
    [20 * n] along the current axis and leave its other offset alone. *)
Theorem press_right_scrolls (doc : selector -> option loc)
    (hp : gmap loc Element) (vw : Z) (tr : list event) (ac pl ra : loc)
    (n : nat)
    (Hac : doc projectNavArrows = Some ac)
    (Hpl : doc projectsList = Some pl)
    (Hra : doc arrowRight = Some ra) :
  let w := run tr (boot doc hp vw) in
  let w1 := run (press ra) w in
  exists h,
    scrollController w1 = Some h /\
    intervals w1 = {[ h := {| cb_container := Some pl; cb_direction := 1 |} ]} /\
    let w2 := run (Fire <$> replicate n h) w1 in
    scrollTop (heap w2 !!! pl) =
      scrollTop (heap w !!! pl)
      + (if 1024 <=? viewportWidth w then 20 * Z.of_nat n else 0) /\
    scrollLeft (heap w2 !!! pl) =
      scrollLeft (heap w !!! pl)
      + (if 1024 <=? viewportWidth w then 0 else 20 * Z.of_nat n).
Proof.
  intros w w1.
  destruct (ScrollSpec.boot_invariant doc hp vw) as [Hc0 _].
  destruct (run_consistent tr _ Hc0) as [Hc Hl]. fold w in Hc, Hl.
  destruct (boot_listeners_right doc hp vw ac pl ra Hac Hpl Hra) as [pre Hpre].
  rewrite Hpre in Hl.
  destruct (dispatch_last_start (Node ra) pointerdown pre _ (Some pl) 1 w Hc Hl)
    as (Hc1 & Hv1 & Hh1 & _); [no_match|].
  destruct (ScrollSpec.dispatch_frame (Node ra) pointerdown w Hc)
    as (_ & _ & Hl1 & _).
  rewrite Hl in Hl1.
  change (pre ++ ?a :: ?b :: ?rest) with (pre ++ [a] ++ b :: rest) in Hl1.
  rewrite app_assoc in Hl1.
  destruct (dispatch_last_start (Node ra) mousedown _ _ (Some pl) 1 _ Hc1 Hl1)
    as (_ & Hv2 & Hh2 & h & Hs & Hi); [no_match|].
  change (dispatch (Node ra) mousedown (dispatch (Node ra) pointerdown w))
    with w1 in Hv2, Hh2, Hs, Hi.
  exists h. split; [exact Hs|]. split; [exact Hi|].
  intros w2. subst w2.
  rewrite (run_fires_ticks n h pl 1 w1) by (rewrite Hi; apply lookup_singleton_eq).
  destruct (ticks_offsets n pl 1 w1) as (w' & E & Ht & Hlf).
  unfold task. rewrite E. cbn [snd].
  rewrite Ht, Hlf, Hv2, Hv1, Hh2, Hh1.
  destruct (1024 <=? viewportWidth w); split; lia.
Qed.

Lemma press_right_scrolls_witness :
  let tr := [Dispatch (Node 3%positive) pointerdown; Fire 1%positive] in
  let w := run tr (boot samplePage ∅ 500) in
  let w1 := run (press 4%positive) w in
  samplePage projectNavArrows = Some 1%positive /\
  samplePage projectsList = Some 2%positive /\
  samplePage arrowRight = Some 4%positive /\
  exists h,
    scrollController w1 = Some h /\
    intervals w1 = {[ h := {| cb_container := Some 2%positive; cb_direction := 1 |} ]} /\
    let w2 := run (Fire <$> replicate 3 h) w1 in
    scrollTop (heap w2 !!! 2%positive) =
      scrollTop (heap w !!! 2%positive)
      + (if 1024 <=? viewportWidth w then 20 * Z.of_nat 3 else 0) /\
    scrollLeft (heap w2 !!! 2%positive) =
      scrollLeft (heap w !!! 2%positive)
      + (if 1024 <=? viewportWidth w then 0 else 20 * Z.of_nat 3).
Proof.
  intros tr w w1.
  split; [reflexivity|]. split; [reflexivity|]. split; [reflexivity|].
  exact (press_right_scrolls samplePage ∅ 500 tr
           1%positive 2%positive 4%positive 3 eq_refl eq_refl eq_refl).
Defined.

(** The same press, computed: the left arrow had moved the list to -20; three
    expiries after the press on the right arrow bring it to 40. *)
Example press_right_computed :
  let w := run [Dispatch (Node 3%positive) pointerdown; Fire 1%positive]
             (boot samplePage ∅ 500) in
  let w2 := run (Fire <$> replicate 3 3%positive) (run (press 4%positive) w) in
  scrollController (run (press 4%positive) w) = Some 3%positive /\
  scrollLeft (heap w !!! 2%positive) = -20 /\
  scrollLeft (heap w2 !!! 2%positive) = 40 /\
  scrollTop (heap w2 !!! 2%positive) = 0.
Proof. vm_compute. repeat split. Qed.

(** X13: a start immediately followed by a stop amounts to the stop alone,
    but for the timer id it used up: whatever calls came before, the two
    leave the controller idle, the offsets untouched and the next id one
    further. *)
Theorem start_then_stop (doc : selector -> option loc) (hp : gmap loc Element)
    (vw : Z) (cs : list call) (c : option loc) (d : Z) :
  let w := performAll cs (initial doc hp vw) in
  task stopContinuousScroll (task (startContinuousScroll c d) w) =
  set_nextHandle (Pos.succ (nextHandle w)) (task stopContinuousScroll w).
Proof.
  intros w.
  destruct (ScrollSpec.performAll_invariant cs _
              (ScrollSpec.initial_consistent doc hp vw)
              (ScrollSpec.initial_allocated doc hp vw)) as [Hc _].
  fold w in Hc.
  assert (Hi : intervals (task (startContinuousScroll c d) w) =
               {[ nextHandle w := {| cb_container := c; cb_direction := d |} ]})
    by exact (ScrollSpec.consistent_start c d w Hc).
  assert (Hs : scrollController (task (startContinuousScroll c d) w) =
               Some (nextHandle w)) by apply ScrollSpec.start_slot.
  assert (Hi0 : intervals (task stopContinuousScroll w) = ∅)
    by exact (ScrollSpec.consistent_stop w Hc).
  assert (Hs0 : scrollController (task stopContinuousScroll w) = None)
    by apply ScrollSpec.stop_slot.
  unfold task in *.
  rewrite (ScrollSpec.stopContinuousScroll_eq (snd _)), Hs. cbn [snd].
  unfold set_scrollController, set_intervals, set_nextHandle.
  cbn [scrollController intervals nextHandle heap viewportWidth document
       listeners].
  rewrite Hi, Hi0, Hs0, delete_singleton_eq.
  rewrite ScrollSpec.startContinuousScroll_eq, ScrollSpec.stopContinuousScroll_eq.
  cbn [snd nextHandle heap viewportWidth document listeners].
  destruct (scrollController w); reflexivity.
Qed.

End ScrollExtra.

(* ================================================================== *)
(** ** Properties of the contact form *)
(* ================================================================== *)

Module FormsSpec.
Import Js Dom DomLogic Forms Validation.

Lemma returns_bind {A B : Type} (m : M A) (k : A -> M B) (pg : Page)
    (Q : B -> Page -> Prop) :
  returns m pg (fun a pg1 => returns (k a) pg1 Q) -> returns (bind m k) pg Q.
Proof.
  intros (a & pg1 & Em & b & pg2 & Ek & HQ).
  exists b, pg2. unfold bind. rewrite Em. auto.
Qed.

Lemma returns_ret {A : Type} (a : A) (pg : Page) (Q : A -> Page -> Prop) :
  Q a pg -> returns (ret a) pg Q.
Proof. intros HQ. exists a, pg. auto. Qed.

Lemma returns_weaken {A : Type} (m : M A) (pg : Page) (Q Q' : A -> Page -> Prop) :
  returns m pg Q -> (forall a pg', Q a pg' -> Q' a pg') -> returns m pg Q'.
Proof. intros (a & pg' & E & HQ) H. exists a, pg'. auto. Qed.

Lemma returns_exec {A : Type} (m : M A) (pg : Page) (Q : A -> Page -> Prop) :
  returns m pg Q -> exists a, fst (m pg) = Normal a /\ Q a (exec m pg).
Proof. intros (a & pg' & E & HQ). exists a. unfold exec. rewrite E. auto. Qed.

Lemma sameShell_refl (pg : Page) : sameShell pg pg.
Proof. repeat split. Qed.

Lemma sameShell_trans (pg1 pg2 pg3 : Page) :
  sameShell pg1 pg2 -> sameShell pg2 pg3 -> sameShell pg1 pg3.
Proof.
  intros (H1 & H2 & H3 & H4) (H1' & H2' & H3' & H4').
  repeat split; congruence.
Qed.

Lemma keeps_refl {A : Type} (proj : Node -> A) (pg : Page) : keeps proj pg pg.
Proof. intros l. reflexivity. Qed.

Lemma keeps_trans {A : Type} (proj : Node -> A) (pg1 pg2 pg3 : Page) :
  keeps proj pg1 pg2 -> keeps proj pg2 pg3 -> keeps proj pg1 pg3.
Proof. intros H1 H2 l. rewrite H2. apply H1. Qed.

(** A write through a reference that is not [null]. *)
Lemma update_returns (l : loc) (f : Node -> Node) (pg : Page) :
  returns (update (Some l) f) pg (fun _ pg' =>
    sameShell pg pg' /\ nextNode pg' = nextNode pg /\
    nodes pg' !!! l = f (nodes pg !!! l) /\
    onlyAt (Some l) pg pg').
Proof.
  exists tt, (set_nodes (<[l := f (nodes pg !!! l)]> (nodes pg)) pg).
  split; [reflexivity|]. split; [repeat split|]. split; [reflexivity|].
  split; [apply lookup_total_insert_eq|].
  intros l' Hne. apply lookup_total_insert_ne. congruence.
Qed.

Lemma onlyAt_keeps {A : Type} (proj : Node -> A) (l : loc) (pg pg' : Page) :
  proj (nodes pg' !!! l) = proj (nodes pg !!! l) -> onlyAt (Some l) pg pg' ->
  keeps proj pg pg'.
Proof.
  intros Hl Ho l'. destruct (decide (l' = l)) as [->|Hne]; [exact Hl|].
  rewrite Ho by congruence. reflexivity.
Qed.

Lemma onlyAt_trans (r : option loc) (pg1 pg2 pg3 : Page) :
  onlyAt r pg1 pg2 -> onlyAt r pg2 pg3 -> onlyAt r pg1 pg3.
Proof. intros H1 H2 l Hne. rewrite H2, H1 by exact Hne. reflexivity. Qed.

Ltac kept l H Ho :=
  apply (onlyAt_keeps _ l); [rewrite H; reflexivity|exact Ho].

(** [clearError] and [showError] are silent on a missing element; on a
    present one they write its text and its [display] and nothing else. *)
Lemma showError_returns (r : option loc) (msg : string) (pg : Page) :
  returns (showError r msg) pg (fun _ pg' =>
    sameShell pg pg' /\ keeps value pg pg' /\ keeps classes pg pg' /\
    onlyAt r pg pg' /\
    forall l, r = Some l ->
      textContent (nodes pg' !!! l) = lit msg /\
      style (nodes pg' !!! l) !! lit "display" = Some (lit "block")).
Proof.
  unfold showError. destruct r as [l|]; cbn [missing bool_decide negb].
  - change (missing (Some l)) with false. cbv iota.
    apply returns_bind.
    eapply returns_weaken; [apply update_returns|].
    intros _ pg1 (Hs1 & _ & Hl1 & Ho1).
    eapply returns_weaken; [apply update_returns|].
    intros _ pg2 (Hs2 & _ & Hl2 & Ho2).
    split; [exact (sameShell_trans _ _ _ Hs1 Hs2)|].
    split; [apply (keeps_trans _ pg pg1 pg2); [kept l Hl1 Ho1|kept l Hl2 Ho2]|].
    split; [apply (keeps_trans _ pg pg1 pg2); [kept l Hl1 Ho1|kept l Hl2 Ho2]|].
    split; [exact (onlyAt_trans _ _ _ _ Ho1 Ho2)|].
    intros l' [= <-]. rewrite Hl2, Hl1. cbn.
    split; [reflexivity|apply lookup_insert_eq].
  - change (missing None) with true. cbv iota. apply returns_ret.
    split; [apply sameShell_refl|]. split; [apply keeps_refl|].
    split; [apply keeps_refl|]. split; [intros l _; reflexivity|].
    intros l [=].
Qed.

Lemma clearError_returns (r : option loc) (pg : Page) :
  returns (clearError r) pg (fun _ pg' =>
    sameShell pg pg' /\ keeps value pg pg' /\ keeps classes pg pg' /\
    onlyAt r pg pg' /\
    forall l, r = Some l ->
      textContent (nodes pg' !!! l) = [] /\
      style (nodes pg' !!! l) !! lit "display" = Some (lit "none")).
Proof.
  unfold clearError. destruct r as [l|].
  - change (missing (Some l)) with false. cbv iota.
    apply returns_bind.
    eapply returns_weaken; [apply update_returns|].
    intros _ pg1 (Hs1 & _ & Hl1 & Ho1).
    eapply returns_weaken; [apply update_returns|].
    intros _ pg2 (Hs2 & _ & Hl2 & Ho2).
    split; [exact (sameShell_trans _ _ _ Hs1 Hs2)|].
    split; [apply (keeps_trans _ pg pg1 pg2); [kept l Hl1 Ho1|kept l Hl2 Ho2]|].
    split; [apply (keeps_trans _ pg pg1 pg2); [kept l Hl1 Ho1|kept l Hl2 Ho2]|].
    split; [exact (onlyAt_trans _ _ _ _ Ho1 Ho2)|].
    intros l' [= <-]. rewrite Hl2, Hl1. cbn.
    split; [reflexivity|apply lookup_insert_eq].
  - change (missing None) with true. cbv iota. apply returns_ret.
    split; [apply sameShell_refl|]. split; [apply keeps_refl|].
    split; [apply keeps_refl|]. split; [intros l _; reflexivity|].
    intros l [=].
Qed.

Lemma returns_gets {A : Type} (f : Page -> A) (pg : Page) (Q : A -> Page -> Prop) :
  Q (f pg) pg -> returns (gets f) pg Q.
Proof. intros HQ. exists (f pg), pg. auto. Qed.

Lemma returns_modify (f : Page -> Page) (pg : Page) (Q : unit -> Page -> Prop) :
  Q tt (f pg) -> returns (modify f) pg Q.
Proof. intros HQ. exists tt, (f pg). auto. Qed.

Lemma In_error_add (cs : list jsstring) (c : jsstring) :
  In c (if bool_decide (c ∈ cs) then cs else cs ++ [c]).
Proof.
  destruct (bool_decide (c ∈ cs)) eqn:E.
  - apply bool_decide_eq_true in E. apply list_elem_of_In. exact E.
  - apply in_or_app. right. left. reflexivity.
Qed.

Lemma In_error_remove (cs : list jsstring) (c : jsstring) :
  ~ In c (List.filter (fun c' => negb (bool_decide (c' = c))) cs).
Proof.
  rewrite filter_In. intros [_ H]. rewrite bool_decide_eq_true_2 in H by reflexivity.
  discriminate.
Qed.

(** What [updateCharCounter] does to the page. *)
Lemma updateCharCounter_returns (pg : Page) :
  returns updateCharCounter pg (fun _ pg' =>
    sameShell pg pg' /\ keeps value pg pg' /\
    onlyAt (find pg None SELECTORS.charRemaining) pg pg' /\
    forall mi cc,
      find pg None SELECTORS.messageInput = Some mi ->
      find pg None SELECTORS.charRemaining = Some cc ->
      let n := List.length (value (nodes pg !!! mi)) in
      textContent (nodes pg' !!! cc) = counterText n /\
      (In (lit "error") (classes (nodes pg' !!! cc)) <-> (300 < n)%nat)).
Proof.
  unfold updateCharCounter, querySelector.
  apply returns_bind, returns_gets. apply returns_bind, returns_gets.
  destruct (find pg None SELECTORS.messageInput) as [mi|];
    destruct (find pg None SELECTORS.charRemaining) as [cc|];
    try (apply returns_ret;
         split; [apply sameShell_refl|]; split; [apply keeps_refl|];
         split; [intros l _; reflexivity|]; intros ? ? [=]; fail);
    try (apply returns_ret;
         split; [apply sameShell_refl|]; split; [apply keeps_refl|];
         split; [intros l _; reflexivity|]; intros ? ? _ [=]; fail).
  change (missing (Some mi) || missing (Some cc)) with false. cbv iota.
  apply returns_bind. unfold read, withNode. apply returns_gets.
  apply returns_bind.
  eapply returns_weaken; [apply update_returns|].
  intros _ pg1 (Hs1 & _ & Hl1 & Ho1).
  set (n := List.length (value (nodes pg !!! mi))).
  assert (Hcase :
    returns (if MESSAGE_LIMIT - Z.of_nat n <? 0
             then classList_add (Some cc) (lit "error")
             else classList_remove (Some cc) (lit "error")) pg1
      (fun _ pg2 => sameShell pg1 pg2 /\ keeps value pg1 pg2 /\
         keeps textContent pg1 pg2 /\ onlyAt (Some cc) pg1 pg2 /\
         (In (lit "error") (classes (nodes pg2 !!! cc)) <-> (300 < n)%nat))).
  { destruct (Z.ltb_spec (MESSAGE_LIMIT - Z.of_nat n) 0) as [Hlt|Hge];
      unfold MESSAGE_LIMIT in *;
      (eapply returns_weaken; [apply update_returns|]);
      intros _ pg2 (Hs2 & _ & Hl2 & Ho2);
      (split; [exact Hs2|]).
    - split; [apply (onlyAt_keeps _ cc);
                [rewrite Hl2; destruct (bool_decide _); reflexivity|exact Ho2]|].
      split; [apply (onlyAt_keeps _ cc);
                [rewrite Hl2; destruct (bool_decide _); reflexivity|exact Ho2]|].
      split; [exact Ho2|]. rewrite Hl2. split; [intros _; lia|intros _].
      destruct (bool_decide (lit "error" ∈ classes (nodes pg1 !!! cc))) eqn:E.
      + apply bool_decide_eq_true in E. apply list_elem_of_In. exact E.
      + cbn [classes set_classes]. apply in_or_app. right. left. reflexivity.
    - split; [kept cc Hl2 Ho2|]. split; [kept cc Hl2 Ho2|].
      split; [exact Ho2|]. rewrite Hl2. cbn [classes set_classes].
      split; [intros H; destruct (In_error_remove _ _ H)|lia]. }
  eapply returns_weaken; [exact Hcase|].
  intros _ pg2 (Hs2 & Kv2 & Kt2 & Ho2 & Hcls).
  split; [exact (sameShell_trans _ _ _ Hs1 Hs2)|].
  split; [apply (keeps_trans _ pg pg1 pg2); [kept cc Hl1 Ho1|exact Kv2]|].
  split; [exact (onlyAt_trans _ _ _ _ Ho1 Ho2)|].
  intros mi' cc' [= <-] [= <-]. cbv zeta. fold n.
  split; [rewrite Kt2, Hl1; reflexivity|exact Hcls].
Qed.

Lemma validateMessage_too_long (s : jsstring) :
  (300 < List.length s)%nat -> isValid (validateMessage s) = false.
Proof.
  intros Hlen. unfold validateMessage.
  destruct (isEmpty (trim s)); [reflexivity|].
  destruct (REGEX.illegalChars_test s); [reflexivity|].
  destruct (Z.ltb_spec MESSAGE_LIMIT (Z.of_nat (List.length s))) as [_|Hge];
    [reflexivity|]. unfold MESSAGE_LIMIT in Hge. lia.
Qed.

(** X14: the character counter. With the message field and the counter on
    the page, [updateCharCounter] writes "Characters: n/300" for the [n] code
    units of the message, and the counter carries the class [error] exactly
    when [n] exceeds 300, whatever classes it had; a counter in error means a
    message [validateMessage] rejects. Nothing else on the page changes. *)
Theorem updateCharCounter_counts (pg : Page) (mi cc : loc)
    (Hmi : find pg None SELECTORS.messageInput = Some mi)
    (Hcc : find pg None SELECTORS.charRemaining = Some cc) :
  let n := List.length (value (nodes pg !!! mi)) in
  let pg' := exec updateCharCounter pg in
  fst (updateCharCounter pg) = Normal tt /\
  textContent (nodes pg' !!! cc) = counterText n /\
  (In (lit "error") (classes (nodes pg' !!! cc)) <-> (300 < n)%nat) /\
  (In (lit "error") (classes (nodes pg' !!! cc)) ->
   isValid (validateMessage (value (nodes pg !!! mi))) = false) /\
  (forall l, l <> cc -> nodes pg' !!! l = nodes pg !!! l) /\
  alerts pg' = alerts pg.
Proof.
  intros n pg'.
  destruct (returns_exec _ _ _ (updateCharCounter_returns pg))
    as ([] & E & Hs & _ & Ho & Hcnt).
  fold pg' in Hs, Ho, Hcnt. rewrite Hcc in Ho.
  destruct (Hcnt mi cc Hmi Hcc) as [Ht Hc]. fold n in Ht, Hc.
  split; [exact E|]. split; [exact Ht|]. split; [exact Hc|].
  split; [intros H; apply validateMessage_too_long, Hc, H|].
  split; [intros l Hne; apply Ho; congruence|].
  destruct Hs as (_ & _ & Ha & _). exact Ha.
Qed.

Lemma updateCharCounter_counts_witness :
  let pg := Sample.page [] (repeat 97%N 301) [] in
  let pg' := exec updateCharCounter pg in
  find pg None SELECTORS.messageInput = Some 9%positive /\
  find pg None SELECTORS.charRemaining = Some 12%positive /\
  textContent (nodes pg' !!! 12%positive) = lit "Characters: 301/300" /\
  In (lit "error") (classes (nodes pg' !!! 12%positive)) /\
  isValid (validateMessage (value (nodes pg !!! 9%positive))) = false.
Proof.
  intros pg pg'.
  assert (Hmi : find pg None SELECTORS.messageInput = Some 9%positive)
    by reflexivity.
  assert (Hcc : find pg None SELECTORS.charRemaining = Some 12%positive)
    by reflexivity.
  split; [exact Hmi|]. split; [exact Hcc|].
  destruct (updateCharCounter_counts pg 9%positive 12%positive Hmi Hcc)
    as (_ & Ht & Hc & Hv & _).
  fold pg' in Ht, Hc, Hv.
  assert (Hin : In (lit "error") (classes (nodes pg' !!! 12%positive))).
  { apply Hc. vm_compute. lia. }
  split; [rewrite Ht; vm_compute; reflexivity|].
  split; [exact Hin|exact (Hv Hin)].
Defined.

(** One of the two conditional [showError] steps of [handleSubmit]. *)
Lemma maybeShow_returns (valid acc : bool) (r : option loc) (msg : string)
    (pg : Page) :
  returns (if negb valid then bind (showError r msg) (fun _ => ret false)
           else ret acc) pg
    (fun res pg' =>
       res = (if valid then acc else false) /\
       sameShell pg pg' /\ keeps value pg pg' /\ keeps classes pg pg' /\
       onlyAt r pg pg' /\
       (valid = true -> pg' = pg) /\
       forall l, r = Some l -> valid = false ->
         textContent (nodes pg' !!! l) = lit msg /\
         style (nodes pg' !!! l) !! lit "display" = Some (lit "block")).
Proof.
  destruct valid; cbn [negb].
  - apply returns_ret. split; [reflexivity|].
    split; [apply sameShell_refl|]. split; [apply keeps_refl|].
    split; [apply keeps_refl|]. split; [intros l _; reflexivity|].
    split; [reflexivity|]. intros l _ [=].
  - apply returns_bind.
    eapply returns_weaken; [apply showError_returns|].
    intros _ pg' (Hs & Kv & Kc & Ho & Hshown).
    apply returns_ret. split; [reflexivity|].
    split; [exact Hs|]. split; [exact Kv|]. split; [exact Kc|].
    split; [exact Ho|]. split; [intros [=]|].
    intros l Hr _. exact (Hshown l Hr).
Qed.

(** What [handleSubmit] does when both fields are on the page. *)
Lemma handleSubmit_returns (pg : Page) (ei mi : loc) :
  find pg None SELECTORS.emailInput = Some ei ->
  find pg None SELECTORS.messageInput = Some mi ->
  let ve := Email.validateEmail (value (nodes pg !!! ei)) in
  let vm := validateMessage (value (nodes pg !!! mi)) in
  let ok := isValid ve && isValid vm in
  returns handleSubmit pg (fun _ pg' =>
    defaultPrevented pg' = true /\
    alerts pg' = alerts pg ++ (if ok then [lit "Submission successful!"] else []) /\
    value (nodes pg' !!! ei) = (if ok then [] else value (nodes pg !!! ei)) /\
    value (nodes pg' !!! mi) = (if ok then [] else value (nodes pg !!! mi)) /\
    forall ee me,
      find pg None SELECTORS.emailError = Some ee ->
      find pg None SELECTORS.messageError = Some me ->
      ee <> me ->
      find pg None SELECTORS.charRemaining <> Some ee ->
      find pg None SELECTORS.charRemaining <> Some me ->
      (textContent (nodes pg' !!! ee) = (if isValid ve then [] else lit (message ve)) /\
       style (nodes pg' !!! ee) !! lit "display"
         = Some (if isValid ve then lit "none" else lit "block")) /\
      (textContent (nodes pg' !!! me) = (if isValid vm then [] else lit (message vm)) /\
       style (nodes pg' !!! me) !! lit "display"
         = Some (if isValid vm then lit "none" else lit "block"))).
Proof.
  intros He Hm ve vm ok. unfold handleSubmit.
  apply returns_bind. unfold preventDefault. apply returns_modify.
  unfold querySelector.
  do 4 (apply returns_bind; apply returns_gets).
  cbn [find set_defaultPrevented]. rewrite He, Hm.
  change (missing (Some ei) || missing (Some mi)) with false. cbv iota.
  set (pg0 := set_defaultPrevented true pg).
  set (oe := find pg None SELECTORS.emailError).
  set (om := find pg None SELECTORS.messageError).
  apply returns_bind.
  eapply returns_weaken; [apply clearError_returns|].
  intros _ pg1 (S1 & Kv1 & _ & O1 & C1).
  apply returns_bind.
  eapply returns_weaken; [apply clearError_returns|].
  intros _ pg2 (S2 & Kv2 & _ & O2 & C2).
  apply returns_bind. unfold read, withNode. apply returns_gets.
  apply returns_bind. apply returns_gets.
  rewrite (Kv2 ei), (Kv1 ei), (Kv2 mi), (Kv1 mi).
  change (nodes pg0) with (nodes pg). fold ve vm. cbv zeta.
  apply returns_bind.
  eapply returns_weaken; [apply maybeShow_returns|].
  intros r3 pg3 (-> & S3 & Kv3 & _ & O3 & Same3 & Sh3).
  apply returns_bind.
  eapply returns_weaken; [apply maybeShow_returns|].
  intros r4 pg4 (-> & S4 & Kv4 & _ & O4 & Same4 & Sh4).
  assert (S04 : sameShell pg0 pg4)
    by (eauto using sameShell_trans).
  assert (Kv04 : keeps value pg0 pg4)
    by (eauto using keeps_trans).
  (* the two error elements, before the final branch *)
  assert (Herr : forall ee me, oe = Some ee -> om = Some me -> ee <> me ->
            (textContent (nodes pg4 !!! ee) = (if isValid ve then [] else lit (message ve)) /\
             style (nodes pg4 !!! ee) !! lit "display"
               = Some (if isValid ve then lit "none" else lit "block")) /\
            (textContent (nodes pg4 !!! me) = (if isValid vm then [] else lit (message vm)) /\
             style (nodes pg4 !!! me) !! lit "display"
               = Some (if isValid vm then lit "none" else lit "block"))).
  { intros ee me Hee Hme Hne. split.
    - rewrite (O4 ee) by (rewrite Hme; congruence).
      destruct (isValid ve) eqn:Eve.
      + rewrite (Same3 eq_refl). rewrite (O2 ee) by (rewrite Hme; congruence).
        exact (C1 ee Hee).
      + exact (Sh3 ee Hee eq_refl).
    - destruct (isValid vm) eqn:Evm.
      + rewrite (Same4 eq_refl).
        assert (E3 : nodes pg3 !!! me = nodes pg2 !!! me).
        { apply O3. rewrite Hee. congruence. }
        rewrite E3. exact (C2 me Hme).
      + exact (Sh4 me Hme eq_refl). }
  destruct S04 as (F04 & A04 & L04 & D04).
  destruct (isValid vm) eqn:Evm; destruct (isValid ve) eqn:Eve;
    subst ok; cbn [andb].
  2,3,4: (apply returns_ret;
          split; [rewrite D04; reflexivity|];
          split; [rewrite L04; symmetry; apply app_nil_r|];
          split; [exact (Kv04 ei)|]; split; [exact (Kv04 mi)|];
          intros ee me Hee Hme Hne _ _; exact (Herr ee me Hee Hme Hne)).
  (* both valid *)
  apply returns_bind. unfold alert. apply returns_modify.
  set (pg5 := set_alerts (alerts pg4 ++ [lit "Submission successful!"]) pg4).
  apply returns_bind.
  eapply returns_weaken; [apply update_returns|].
  intros _ pg6 (S6 & _ & L6 & O6).
  apply returns_bind.
  eapply returns_weaken; [apply update_returns|].
  intros _ pg7 (S7 & _ & L7 & O7).
  eapply returns_weaken; [apply updateCharCounter_returns|].
  intros _ pg8 (S8 & Kv8 & O8 & _).
  assert (S58 : sameShell pg5 pg8) by (eauto using sameShell_trans).
  destruct S58 as (F58 & A58 & L58 & D58).
  split; [rewrite D58; exact D04|].
  split; [rewrite L58; cbn [alerts pg5 set_alerts]; rewrite L04; reflexivity|].
  split.
  { rewrite (Kv8 ei). destruct (decide (ei = mi)) as [->|Hne].
    - rewrite L7. reflexivity.
    - rewrite (O7 ei) by congruence. rewrite L6. reflexivity. }
  split; [rewrite (Kv8 mi), L7; reflexivity|].
  intros ee me Hee Hme Hne Hce Hcm.
  destruct (Herr ee me Hee Hme Hne) as [[Te Se] [Tm Sm]].
  assert (F57 : find pg7 = find pg) by
    (destruct S6 as (F6 & _), S7 as (F7 & _); rewrite F7, F6; exact F04).
  assert (Hsame : forall l, find pg None SELECTORS.charRemaining <> Some l ->
            textContent (nodes pg8 !!! l) = textContent (nodes pg4 !!! l) /\
            style (nodes pg8 !!! l) = style (nodes pg4 !!! l)).
  { intros l Hl. rewrite (O8 l) by (rewrite F57; exact Hl).
    assert (K67 : keeps textContent pg6 pg7 /\ keeps style pg6 pg7)
      by (split; kept mi L7 O7).
    assert (K56 : keeps textContent pg5 pg6 /\ keeps style pg5 pg6)
      by (split; kept ei L6 O6).
    destruct K67 as [Kt7 Ks7], K56 as [Kt6 Ks6].
    rewrite (Kt7 l), (Ks7 l), (Kt6 l), (Ks6 l). split; reflexivity. }
  destruct (Hsame ee Hce) as [-> ->]. destruct (Hsame me Hcm) as [-> ->].
  auto.
Qed.

(** X15: submitting the form. With both fields on the page, [handleSubmit]
    returns normally and always prevents the default submission; it shows
    exactly one alert, 'Submission successful!', and empties both fields when
    the e-mail and the message both validate, and otherwise shows no alert
    and leaves both fields as the user typed them. *)
Theorem handleSubmit_outcome (pg : Page) (ei mi : loc)
    (He : find pg None SELECTORS.emailInput = Some ei)
    (Hm : find pg None SELECTORS.messageInput = Some mi) :
  let email := value (nodes pg !!! ei) in
  let msg := value (nodes pg !!! mi) in
  let ok := isValid (Email.validateEmail email) && isValid (validateMessage msg) in
  let pg' := exec handleSubmit pg in
  fst (handleSubmit pg) = Normal tt /\
  defaultPrevented pg' = true /\
  alerts pg' = alerts pg ++ (if ok then [lit "Submission successful!"] else []) /\
  value (nodes pg' !!! ei) = (if ok then [] else email) /\
  value (nodes pg' !!! mi) = (if ok then [] else msg).
Proof.
  intros email msg ok pg'.
  destruct (returns_exec _ _ _ (handleSubmit_returns pg ei mi He Hm))
    as ([] & E & Hd & Ha & Hve & Hvm & _).
  repeat split; assumption.
Qed.

Lemma handleSubmit_outcome_witness :
  let good := Sample.page (lit "ann@mail.org") (lit "hello") [] in
  let bad := Sample.page (lit "ann@mail.org") (lit "hello world") [] in
  find good None SELECTORS.emailInput = Some 8%positive /\
  find good None SELECTORS.messageInput = Some 9%positive /\
  (alerts (exec handleSubmit good) = [lit "Submission successful!"] /\
   value (nodes (exec handleSubmit good) !!! 8%positive) = [] /\
   value (nodes (exec handleSubmit good) !!! 9%positive) = []) /\
  (alerts (exec handleSubmit bad) = [] /\
   defaultPrevented (exec handleSubmit bad) = true /\
   value (nodes (exec handleSubmit bad) !!! 9%positive) = lit "hello world").
Proof.
  intros good bad.
  assert (He : find good None SELECTORS.emailInput = Some 8%positive)
    by reflexivity.
  assert (Hm : find good None SELECTORS.messageInput = Some 9%positive)
    by reflexivity.
  split; [exact He|]. split; [exact Hm|]. split.
  - destruct (handleSubmit_outcome good 8%positive 9%positive He Hm)
      as (_ & _ & Ha & Hve & Hvm).
    split; [exact Ha|]. split; [exact Hve|exact Hvm].
  - destruct (handleSubmit_outcome bad 8%positive 9%positive eq_refl eq_refl)
      as (_ & Hd & Ha & _ & Hvm).
    split; [exact Ha|]. split; [exact Hd|exact Hvm].
Defined.

(** X16: the error elements after a submission. With both fields and both
    error elements on the page (the two error elements and the counter being
    different elements), each error element ends up showing its field's
    validation message with [display: block] when that field is invalid, and
    empty with [display: none] when it is valid, whatever it showed before. *)
Theorem handleSubmit_errors (pg : Page) (ei mi ee me : loc)
    (He : find pg None SELECTORS.emailInput = Some ei)
    (Hm : find pg None SELECTORS.messageInput = Some mi)
    (Hee : find pg None SELECTORS.emailError = Some ee)
    (Hme : find pg None SELECTORS.messageError = Some me)
    (Hdistinct : ee <> me)
    (Hce : find pg None SELECTORS.charRemaining <> Some ee)
    (Hcm : find pg None SELECTORS.charRemaining <> Some me) :
  let ve := Email.validateEmail (value (nodes pg !!! ei)) in
  let vm := validateMessage (value (nodes pg !!! mi)) in
  let pg' := exec handleSubmit pg in
  textContent (nodes pg' !!! ee) = (if isValid ve then [] else lit (message ve)) /\
  style (nodes pg' !!! ee) !! lit "display"
    = Some (if isValid ve then lit "none" else lit "block") /\
  textContent (nodes pg' !!! me) = (if isValid vm then [] else lit (message vm)) /\
  style (nodes pg' !!! me) !! lit "display"
    = Some (if isValid vm then lit "none" else lit "block").
Proof.
  intros ve vm pg'.
  destruct (returns_exec _ _ _ (handleSubmit_returns pg ei mi He Hm))
    as ([] & _ & _ & _ & _ & _ & Herr).
  destruct (Herr ee me Hee Hme Hdistinct Hce Hcm) as [[Te Se] [Tm Sm]].
  repeat split; assumption.
Qed.

Lemma handleSubmit_errors_witness :
  let pg := Sample.page (lit "ann@mail.org") (lit "hello world") [] in
  let pg' := exec handleSubmit pg in
  find pg None SELECTORS.emailInput = Some 8%positive /\
  find pg None SELECTORS.messageInput = Some 9%positive /\
  find pg None SELECTORS.emailError = Some 10%positive /\
  find pg None SELECTORS.messageError = Some 11%positive /\
  10%positive <> 11%positive /\
  find pg None SELECTORS.charRemaining <> Some 10%positive /\
  find pg None SELECTORS.charRemaining <> Some 11%positive /\
  textContent (nodes pg' !!! 10%positive) = [] /\
  style (nodes pg' !!! 10%positive) !! lit "display" = Some (lit "none") /\
  textContent (nodes pg' !!! 11%positive) =
    lit "Message contains invalid characters. Only letters, numbers, @, ., _, and - are allowed." /\
  style (nodes pg' !!! 11%positive) !! lit "display" = Some (lit "block").
Proof.
  intros pg pg'.
  assert (Hd : 10%positive <> 11%positive) by discriminate.
  assert (Hce : find pg None SELECTORS.charRemaining <> Some 10%positive)
    by discriminate.
  assert (Hcm : find pg None SELECTORS.charRemaining <> Some 11%positive)
    by discriminate.
  repeat (split; [reflexivity|]).
  split; [exact Hd|]. split; [exact Hce|]. split; [exact Hcm|].
  exact (handleSubmit_errors pg 8%positive 9%positive 10%positive 11%positive
           eq_refl eq_refl eq_refl eq_refl Hd Hce Hcm).
Defined.

(** X17: when the e-mail field or the message field is not on the page,
    [handleSubmit] prevents the default submission and does nothing else: no
    validation, no error text, no alert. *)
Theorem handleSubmit_missing_field (pg : Page)
    (Hmissing : find pg None SELECTORS.emailInput = None \/
                find pg None SELECTORS.messageInput = None) :
  handleSubmit pg = (Normal tt, set_defaultPrevented true pg).
Proof.
  unfold handleSubmit, bind, preventDefault, modify, querySelector, gets.
  cbn [find set_defaultPrevented].
  destruct Hmissing as [E|E]; rewrite E.
  - reflexivity.
  - destruct (find pg None SELECTORS.emailInput); reflexivity.
Qed.

Lemma handleSubmit_missing_field_witness :
  let pg := set_nodes ∅ (Sample.page [] [] []) in
  let pg0 := {| nodes := nodes pg; nextNode := nextNode pg;
                find := fun _ _ => None; appState := appState pg;
                alerts := alerts pg; defaultPrevented := false |} in
  (find pg0 None SELECTORS.emailInput = None \/
   find pg0 None SELECTORS.messageInput = None) /\
  handleSubmit pg0 = (Normal tt, set_defaultPrevented true pg0).
Proof.
  intros pg pg0.
  assert (H : find pg0 None SELECTORS.emailInput = None \/
              find pg0 None SELECTORS.messageInput = None)
    by (left; reflexivity).
  split; [exact H|]. exact (handleSubmit_missing_field pg0 H).
Defined.

End FormsSpec.

(* ================================================================== *)
(** ** Properties of rendering and card interaction *)
(* ================================================================== *)

Module RenderSpec.
Import Js Dom DomLogic Render.
Import FormsSpec.

(** The text [el.textContent = v] leaves in the element. *)
Lemma setTextContent_returns (l : loc) (v : Js.value) (pg : Page) :
  returns (setTextContent (Some l) v) pg (fun _ pg' =>
    sameShell pg pg' /\ nextNode pg' = nextNode pg /\
    nodes pg' !!! l = set_content (RenderInv.textOf v) [] (nodes pg !!! l) /\
    onlyAt (Some l) pg pg').
Proof. apply update_returns. Qed.





(** X18: when the spotlight element or its titles container is not on the
    page, [renderSpotlight] changes nothing at all; in particular the
    current project id is not updated. *)
Theorem renderSpotlight_missing (project : Projects.Project) (pg : Page)
    (Hmissing : find pg None SELECTORS.projectSpotlight = None \/
                find pg None SELECTORS.spotlightTitles = None) :
  renderSpotlight project pg = (Normal tt, pg).
Proof.
  unfold renderSpotlight, bind, querySelector, gets.
  destruct Hmissing as [E|E]; rewrite E.
  - reflexivity.
  - destruct (find pg None SELECTORS.projectSpotlight); reflexivity.
Qed.

Lemma renderSpotlight_missing_witness :
  let pg := {| nodes := ∅; nextNode := 1%positive; find := fun _ _ => None;
               appState := App.initialState; alerts := [];
               defaultPrevented := false |} in
  (find pg None SELECTORS.projectSpotlight = None \/
   find pg None SELECTORS.spotlightTitles = None) /\
  renderSpotlight App.placeholderProject pg = (Normal tt, pg).
Proof.
  intros pg.
  assert (H : find pg None SELECTORS.projectSpotlight = None \/
              find pg None SELECTORS.spotlightTitles = None)
    by (left; reflexivity).
  split; [exact H|]. exact (renderSpotlight_missing _ pg H).
Defined.



Lemma find_all_false {A : Type} (f : A -> bool) (xs : list A) :
  (forall a, In a xs -> f a = false) -> List.find f xs = None.
Proof.
  induction xs as [|a xs IH]; intros H; [reflexivity|].
  simpl. rewrite (H a (or_introl eq_refl)). apply IH.
  intros b Hb. apply H. right. exact Hb.
Qed.

(** X20: a card click can only select a project whose id is a string (the
    card's [data-id] attribute is one, and the lookup compares with [===]).
    When no loaded project has a string id (they are numbers in the data,
    say), no click, wherever it lands, changes the page. *)
Theorem handleCardClick_needs_string_id (pg : Page) (path : list loc)
    (Hids : forall p, In p (App.projectsData (appState pg)) ->
              match Projects.id p with
              | VStr _ | VNull => False
              | _ => True
              end) :
  handleCardClick path pg = (Normal tt, pg).
Proof.
  unfold handleCardClick, bind, closestClass, gets.
  destruct (List.find _ path) as [card|]; [|reflexivity].
  change (missing (Some card)) with false. cbv iota.
  unfold getAttribute, read, withNode, gets.
  rewrite find_all_false; [reflexivity|].
  intros p Hp. specialize (Hids p Hp).
  destruct (Projects.id p), (attributes (nodes pg !!! card) !! lit "data-id");
    try reflexivity; destruct Hids.
Qed.

Lemma handleCardClick_needs_string_id_witness :
  let numbered : Projects.Project :=
    {| Projects.id := VNum 5; Projects.name := VStr (lit "Five");
       Projects.short := VStr (lit "s"); Projects.long := VStr (lit "l");
       Projects.url := VStr (lit "#");
       Projects.cardImage := VStr PLACEHOLDERS.cardImage;
       Projects.spotlightImage := VStr PLACEHOLDERS.spotlightImage |} in
  let pg := exec (renderProjectsList [numbered]) (Sample.page [] [] [numbered]) in
  children (nodes pg !!! 2%positive) = [21%positive] /\
  attributes (nodes pg !!! 21%positive) !! lit "data-id" = Some (lit "5") /\
  (forall p, In p (App.projectsData (appState pg)) ->
     match Projects.id p with
     | VStr _ | VNull => False
     | _ => True
     end) /\
  handleCardClick [22%positive; 21%positive; 2%positive] pg = (Normal tt, pg).
Proof.
  intros numbered pg.
  assert (Hps : App.projectsData (appState pg) = [numbered])
    by (vm_compute; reflexivity).
  assert (Hids : forall p, In p (App.projectsData (appState pg)) ->
            match Projects.id p with
            | VStr _ | VNull => False
            | _ => True
            end).
  { rewrite Hps. intros p [<-|[]]. exact I. }
  split; [vm_compute; reflexivity|]. split; [vm_compute; reflexivity|].
  split; [exact Hids|].
  exact (handleCardClick_needs_string_id pg _ Hids).
Defined.

(** *** Building the card list *)















(** *** Clicking a card *)







(** *** The about-me block *)



End RenderSpec.
